(** * Verification of scripts/update-reading.py

    A shallow embedding of the "Reading Now" updater: the configuration
    reader [parse_yaml], the renderer [generate_html] with [get_image_src],
    and the patcher [update_html] built on Python's [re.sub].

    Text is modelled as [list ascii]: a character is a code point in
    0..255 (Latin-1); code points above 255 are not modelled. *)

From Stdlib Require Import Ascii String List Bool Arith Lia.
Import ListNotations.

Open Scope list_scope.

Definition str := list ascii.

(** A string literal as a character list. *)
Definition lit (s : string) : str := list_ascii_of_string s.

Definition dq : ascii := "034"%char.
Definition bslash : ascii := "092"%char.
Definition nl : ascii := "010"%char.

(** Fixed markup of the source, written with ['] in place of the double
    quote (the markup itself contains no apostrophe). *)
Definition q (s : string) : str :=
  map (fun c => if Ascii.eqb c "'"%char then dq else c) (lit s).

(** ** Character classes and simple string operations *)

(** Python's [str.isspace] (and the [\s] class of [re]) on code points
    0..255. *)
Definition is_space (c : ascii) : bool :=
  let n := nat_of_ascii c in
  ((9 <=? n) && (n <=? 13)) || ((28 <=? n) && (n <=? 32))
  || (n =? 133) || (n =? 160).

Fixpoint starts_with (p s : str) : bool :=
  match p, s with
  | [], _ => true
  | c :: p', d :: s' => Ascii.eqb c d && starts_with p' s'
  | _ :: _, [] => false
  end.

(** [p] occurs somewhere in [s]. *)
Fixpoint occurs (p s : str) : bool :=
  starts_with p s ||
  match s with
  | [] => false
  | _ :: s' => occurs p s'
  end.

(** [str.startswith] on a tuple of prefixes. *)
Definition startswith_any (ps : list str) (s : str) : bool :=
  existsb (fun p => starts_with p s) ps.

(** ** The marker regular expression of [update_html]

    [r"<!-- Reading Now -->.*?<!-- Latest Creative Work -->"] with
    [re.DOTALL]: the start marker, then the shortest run of any characters
    up to the end marker. *)

Definition start_marker : str := lit "<!-- Reading Now -->".
Definition end_marker : str := lit "<!-- Latest Creative Work -->".

(** The end marker after its opening angle bracket. *)
Definition end_tail : str := lit "!-- Latest Creative Work -->".

(** [.*?<end>]: the lazy run, tried shortest first. Returns the matched
    text and the remaining input. *)
Fixpoint lazy_upto_end (s : str) : option (str * str) :=
  if starts_with end_marker s then
    Some (end_marker, skipn (length end_marker) s)
  else
    match s with
    | [] => None
    | c :: s' =>
        match lazy_upto_end s' with
        | Some (m, r) => Some (c :: m, r)
        | None => None
        end
    end.

(** An attempt of the whole pattern at the head of [s]. *)
Definition match_at (s : str) : option (str * str) :=
  if starts_with start_marker s then
    match lazy_upto_end (skipn (length start_marker) s) with
    | Some (m, r) => Some (start_marker ++ m, r)
    | None => None
    end
  else None.

(** Some position of [s] starts a match of the pattern. *)
Fixpoint has_region (s : str) : bool :=
  match match_at s with
  | Some _ => true
  | None =>
      match s with
      | [] => false
      | _ :: s' => has_region s'
      end
  end.

(** ** Replacement templates of [re.sub]

    A replacement string is a template: CPython uses it literally when it
    holds no backslash, and otherwise compiles it first
    ([re._parser.parse_template]) before scanning for matches. The pattern
    above has no capture group, so only group 0 may be referenced. *)

Inductive titem := TLit (c : ascii) | TGroup0.

Definition is_digit (c : ascii) : bool :=
  let n := nat_of_ascii c in (48 <=? n) && (n <=? 57).
Definition is_octal (c : ascii) : bool :=
  let n := nat_of_ascii c in (48 <=? n) && (n <=? 55).
Definition is_ascii_letter (c : ascii) : bool :=
  let n := nat_of_ascii c in
  ((65 <=? n) && (n <=? 90)) || ((97 <=? n) && (n <=? 122)).
Definition digit_value (c : ascii) : nat := nat_of_ascii c - 48.

(** The escapes of [re._parser.ESCAPES]: \a \b \f \n \r \t \v and \\. *)
Definition simple_escape (c : ascii) : option ascii :=
  match nat_of_ascii c with
  | 97 => Some "007"%char
  | 98 => Some "008"%char
  | 102 => Some "012"%char
  | 110 => Some "010"%char
  | 114 => Some "013"%char
  | 116 => Some "009"%char
  | 118 => Some "011"%char
  | 92 => Some bslash
  | _ => None
  end.

(** [s.getuntil(">")]: the group name and the text after [>]. *)
Fixpoint until_gt (s : str) : option (str * str) :=
  match s with
  | [] => None
  | c :: s' =>
      if Ascii.eqb c ">" then Some ([], s')
      else match until_gt s' with
           | Some (n, r) => Some (c :: n, r)
           | None => None
           end
  end.

(** A [\g<name>] reference that is valid for a pattern without groups:
    a decimal name of value 0. *)
Definition group0_name (name : str) : bool :=
  match name with
  | [] => false
  | _ => forallb (fun c => Ascii.eqb c "0") name
  end.

(** [\0] takes at most two further octal digits. *)
Definition octal_tail (s : str) : list ascii * str :=
  match s with
  | a :: s1 =>
      if is_octal a then
        match s1 with
        | b :: s2 => if is_octal b then ([a; b], s2) else ([a], s1)
        | [] => ([a], s1)
        end
      else ([], s)
  | [] => ([], s)
  end.

Definition octal_value (ds : list ascii) : nat :=
  fold_left (fun acc d => acc * 8 + digit_value d) ds 0.

Fixpoint parse_template_n (n : nat) (s : str) : option (list titem) :=
  let cons_it it k := match k with Some t => Some (it :: t) | None => None end in
  match n with
  | O => Some []
  | S n' =>
    match s with
    | [] => Some []
    | c :: s1 =>
      if Ascii.eqb c bslash then
        match s1 with
        | [] => None
        | d :: s2 =>
          if Ascii.eqb d "g" then
            match s2 with
            | lt :: s3 =>
                if Ascii.eqb lt "<" then
                  match until_gt s3 with
                  | Some (name, s4) =>
                      if group0_name name then cons_it TGroup0 (parse_template_n n' s4)
                      else None
                  | None => None
                  end
                else None
            | [] => None
            end
          else if Ascii.eqb d "0" then
            let (ds, s3) := octal_tail s2 in
            cons_it (TLit (ascii_of_nat (octal_value ds mod 256))) (parse_template_n n' s3)
          else if is_digit d then
            (* [\d], [\dd]: a group reference, invalid here; [\ooo]: octal *)
            match s2 with
            | e :: f :: s3 =>
                if is_octal d && is_octal e && is_octal f then
                  let v := octal_value [d; e; f] in
                  if v <=? 255 then cons_it (TLit (ascii_of_nat v)) (parse_template_n n' s3)
                  else None
                else None
            | _ => None
            end
          else
            match simple_escape d with
            | Some e => cons_it (TLit e) (parse_template_n n' s2)
            | None =>
                if is_ascii_letter d then None
                else cons_it (TLit c) (cons_it (TLit d) (parse_template_n n' s2))
            end
        end
      else cons_it (TLit c) (parse_template_n n' s1)
    end
  end.

Definition parse_template (s : str) : option (list titem) :=
  parse_template_n (length s) s.

Definition expand (t : list titem) (m : str) : str :=
  flat_map (fun it => match it with TLit c => [c] | TGroup0 => m end) t.

(** The replacement as a function of the matched text, or [None] when
    the template does not compile ([re.error]). *)
Definition repl_filter (repl : str) : option (str -> str) :=
  if existsb (Ascii.eqb bslash) repl then
    match parse_template repl with
    | Some t => Some (expand t)
    | None => None
    end
  else Some (fun _ => repl).

(** The scan of [re.sub] with [count=0]: every leftmost, non-overlapping
    match is replaced; the fuel bounds the input length. *)
Fixpoint sub_n (n : nat) (ex : str -> str) (s : str) : str :=
  match n with
  | O => s
  | S n' =>
    match s with
    | [] => []
    | c :: s' =>
        match match_at s with
        | Some (m, r) => ex m ++ sub_n n' ex r
        | None => c :: sub_n n' ex s'
        end
    end
  end.

Definition sub_all (ex : str -> str) (s : str) : str := sub_n (length s) ex s.

(** [re.sub(pattern, new_card_html, html_content, flags=re.DOTALL)];
    [None] is the [re.error] raised for a bad template. *)
Definition reading_sub (new_card_html html_content : str) : option str :=
  match repl_filter new_card_html with
  | Some ex => Some (sub_all ex html_content)
  | None => None
  end.

(** ** Data model *)

(** A book record: the dict built by [parse_yaml], which always holds the
    six keys. *)
Record book := mk_book {
  title : str;
  author : str;
  image : str;
  buy_url : str;
  buy_label : str;
  description : str
}.

(** The parsed configuration: [{"books": [...], "summary": ...}]. *)
Record reading := mk_reading {
  books : list book;
  summary : str
}.

(** ** The renderer *)

Definition get_image_src (image_value : str) : str :=
  if startswith_any [lit "http://"; lit "https://"] image_value then image_value
  else lit "/assets/img/" ++ image_value.

(** The image section; [None] is the [IndexError] of [books[0]] on an
    empty list. *)
Definition image_html (bs : list book) : option str :=
  match bs with
  | [] => None
  | [b0] =>
      Some (q "<img alt='" ++ title b0 ++ q "' src='" ++ get_image_src (image b0)
            ++ q "' style='width: 100%;'
                    class='activator'>")
  | b0 :: b1 :: _ =>
      Some (q "<div style='display: flex; justify-content: space-between;'>
                  <img alt='" ++ title b0 ++ q "' src='" ++ get_image_src (image b0)
            ++ q "' style='width: 48%;'
                    class='activator'>
                  <img alt='" ++ title b1 ++ q "' src='" ++ get_image_src (image b1)
            ++ q "'
                    style='width: 48%;' class='activator'>
                </div>")
  end.

(** [str.join]. *)
Fixpoint join (sep : str) (xs : list str) : str :=
  match xs with
  | [] => []
  | [x] => x
  | x :: xs' => x ++ sep ++ join sep xs'
  end.

Definition item_sep : str := q "
                  ".

(** [book.get("author")] is truthy exactly when the author is non-empty. *)
Definition details_item (b : book) : str :=
  match author b with
  | _ :: _ =>
      q "<li>" ++ title b ++ q " (" ++ author b ++ q "): " ++ description b ++ q "</li>"
  | [] => q "<li>" ++ title b ++ q ": " ++ description b ++ q "</li>"
  end.

Definition details_html (bs : list book) : str := join item_sep (map details_item bs).

Definition action_item (b : book) : str :=
  q "<a aria-label='Find `" ++ title b ++ q "` on " ++ buy_label b ++ q "'
                    href='" ++ buy_url b ++ q "' target='_blank'
                    data-position='top' data-tooltip='Find `" ++ title b ++ q "` on "
  ++ buy_label b ++ q "'
                    class='btn-floating btn-large waves-effect waves-light blue-grey tooltipped'>
                    <i class='fa fa-book'></i>
                  </a>".

Definition actions_html (bs : list book) : str := join item_sep (map action_item bs).

(** The full card around the four sections. *)
Definition card (image_part summary_part details_part actions_part : str) : str :=
  q "<!-- Reading Now -->
          <div class='col s12 m6 l4'>
            <div class='card medium'>
              <div class='card-image waves-effect waves-block waves-light'>
                " ++ image_part ++ q "
              </div>
              <div class='card-content'>
                <span class='card-title activator teal-text hoverline'>Reading Now
                  <i class='mdi-navigation-more-vert right'></i>
                </span>
                <p>
                  " ++ summary_part ++ q "
                </p>
              </div>
              <div class='card-reveal'>
                <span class='card-title grey-text'>
                  <small>Details</small>
                  <i class='mdi-navigation-close right'></i>
                </span>
                <ul>
                  " ++ details_part ++ q "
                </ul>
                <div class='card-action'>
                  " ++ actions_part ++ q "
                </div>
              </div>
            </div>
          </div>
          <!-- Latest Creative Work -->".

Definition generate_html (data : reading) : option str :=
  match image_html (books data) with
  | Some img =>
      Some (card img (summary data) (details_html (books data)) (actions_html (books data)))
  | None => None
  end.

(** ** The configuration reader *)

Fixpoint skip_ws (s : str) : str :=
  match s with
  | c :: s' => if is_space c then skip_ws s' else s
  | [] => []
  end.

(** The characters up to the next newline ([.] does not match it). *)
Fixpoint take_line (s : str) : str :=
  match s with
  | c :: s' => if Ascii.eqb c nl then [] else c :: take_line s'
  | [] => []
  end.

(** [str.strip()]. *)
Definition strip (s : str) : str := rev (skip_ws (rev (skip_ws s))).

Fixpoint last_non_nl (w : str) : option ascii :=
  match w with
  | [] => None
  | c :: w' =>
      match last_non_nl w' with
      | Some d => Some d
      | None => if Ascii.eqb c nl then None else Some c
      end
  end.

(** [key] at the head of [s]: the text after it. *)
Definition after_key (key s : str) : option str :=
  if starts_with key s then Some (skipn (length key) s) else None.

(** [\s*(.+)$] (multiline) and [\s*(.+?)(?:\n|$)] after a key: the greedy
    [\s*] stops at the first non-blank character and the group runs to the
    end of its line; when only blanks remain, [\s*] backtracks and the
    group is the last blank that is not a newline. *)
Definition unquoted_value (w : str) : option str :=
  match skip_ws w with
  | [] =>
      match last_non_nl w with
      | Some c => Some [c]
      | None => None
      end
  | t => Some (take_line t)
  end.

(** [\s*"(.+)"$] (multiline): the line after the opening quote must end
    with the closing quote. *)
Definition quoted_line_value (w : str) : option str :=
  match skip_ws w with
  | c :: rest =>
      if Ascii.eqb c dq then
        let line := take_line rest in
        match rev line with
        | d :: _ :: _ => if Ascii.eqb d dq then Some (removelast line) else None
        | _ => None
        end
      else None
  | [] => None
  end.

(** The group [(.+)] before a closing quote on one line: the longest
    non-empty text followed by a quote. *)
Fixpoint greedy_to_quote (line : str) : option str :=
  match line with
  | [] => None
  | c :: rest =>
      match greedy_to_quote rest with
      | Some g => Some (c :: g)
      | None =>
          match rest with
          | d :: _ => if Ascii.eqb d dq then Some [c] else None
          | [] => None
          end
      end
  end.

(** [\s*"(.+)"] after a key. *)
Definition quoted_value (w : str) : option str :=
  match skip_ws w with
  | c :: rest => if Ascii.eqb c dq then greedy_to_quote (take_line rest) else None
  | [] => None
  end.

Definition bind_opt {A B} (o : option A) (f : A -> option B) : option B :=
  match o with Some a => f a | None => None end.

(** [re.search] without anchors: the leftmost position where the pattern
    matches; [f] is the match attempt at a position. *)
Fixpoint search (f : str -> option str) (s : str) : option str :=
  match f s with
  | Some g => Some g
  | None =>
      match s with
      | [] => None
      | _ :: s' => search f s'
      end
  end.

(** [re.search] of a pattern starting with [^] under [re.MULTILINE]:
    positions at the start of the text or just after a newline. *)
Fixpoint search_bol (f : str -> option str) (bol : bool) (s : str) : option str :=
  match (if bol then f s else None) with
  | Some g => Some g
  | None =>
      match s with
      | [] => None
      | c :: s' => search_bol f (Ascii.eqb c nl) s'
      end
  end.

Definition summary_key : str := lit "summary:".

(** [re.search(r'^summary:\s*"(.+)"$', content, re.MULTILINE)] *)
Definition summary_quoted (content : str) : option str :=
  search_bol (fun s => bind_opt (after_key summary_key s) quoted_line_value) true content.

(** [re.search(r'^summary:\s*(.+)$', content, re.MULTILINE)] *)
Definition summary_unquoted (content : str) : option str :=
  search_bol (fun s => bind_opt (after_key summary_key s) unquoted_value) true content.

Definition field_key (field : str) : str := field ++ lit ":".

(** [re.search(rf'{field}:\s*"(.+)"', block)] *)
Definition field_quoted (field block : str) : option str :=
  search (fun s => bind_opt (after_key (field_key field) s) quoted_value) block.

(** [re.search(rf'{field}:\s*(.+?)(?:\n|$)', block)] *)
Definition field_unquoted (field block : str) : option str :=
  search (fun s => bind_opt (after_key (field_key field) s) unquoted_value) block.

(** One field of a book: quoted form first, then unquoted, else the empty string. *)
Definition parse_field (field block : str) : str :=
  match field_quoted field block with
  | Some g => strip g
  | None =>
      match field_unquoted field block with
      | Some g => strip g
      | None => []
      end
  end.

(** A match of [\n\s*-\s+title:] at the head of [s]: the text after it. *)
Definition split_match (s : str) : option str :=
  match s with
  | c :: t =>
      if Ascii.eqb c nl then
        match skip_ws t with
        | d :: t2 =>
            if Ascii.eqb d "-" then
              match t2 with
              | e :: _ => if is_space e then after_key (lit "title:") (skip_ws t2) else None
              | [] => None
              end
            else None
        | [] => None
        end
      else None
  | [] => None
  end.

(** [re.split]: the piece before the first match and the later pieces. *)
Fixpoint split_n (n : nat) (s : str) : str * list str :=
  match n with
  | O => (s, [])
  | S n' =>
    match s with
    | [] => ([], [])
    | c :: s' =>
        match split_match s with
        | Some r => let (p, ps) := split_n n' r in ([], p :: ps)
        | None => let (p, ps) := split_n n' s' in (c :: p, ps)
        end
    end
  end.

(** [re.split(r'\n\s*-\s+title:', content)[1:]] *)
Definition book_blocks (content : str) : list str := snd (split_n (length content) content).

Definition field_names : list str :=
  [lit "title"; lit "author"; lit "image"; lit "buy_url"; lit "buy_label"; lit "description"].

Definition parse_book (block : str) : book :=
  let b := lit "title:" ++ block in
  mk_book (parse_field (lit "title") b) (parse_field (lit "author") b)
          (parse_field (lit "image") b) (parse_field (lit "buy_url") b)
          (parse_field (lit "buy_label") b) (parse_field (lit "description") b).

(** The six fields of a book, in the order of [field_names]. *)
Definition book_fields (bk : book) : list str :=
  [title bk; author bk; image bk; buy_url bk; buy_label bk; description bk].

Definition parse_summary (content : str) : str :=
  match summary_quoted content with
  | Some g => strip g
  | None =>
      match summary_unquoted content with
      | Some g => strip g
      | None => []
      end
  end.

Definition parse_yaml (content : str) : reading :=
  mk_reading (map parse_book (book_blocks content)) (parse_summary content).

(** The suffixes of a text that start a line: where [^] matches under
    [re.MULTILINE]. *)
Fixpoint line_starts_from (bol : bool) (s : str) : list str :=
  (if bol then [s] else []) ++
  match s with
  | [] => []
  | c :: s' => line_starts_from (Ascii.eqb c nl) s'
  end.

(** ** The patcher, with its file effects

    A small state-and-error monad over the file system: the contents of
    each path and the log of writes, in order. *)

Record fs := mk_fs {
  contents : str -> option str;
  writes : list (str * str)
}.

Inductive exn := FileNotFoundError | ReError.

Definition M (A : Type) := fs -> (A + exn) * fs.

Definition ret {A} (a : A) : M A := fun st => (inl a, st).
Definition bind {A B} (m : M A) (k : A -> M B) : M B :=
  fun st => match m st with
            | (inl a, st') => k a st'
            | (inr e, st') => (inr e, st')
            end.
Notation "x <- m ;; k" := (bind m (fun x => k)) (at level 61, m at next level, right associativity).

(** The replacement function of a literal replacement string. *)
Definition const_repl (frag : str) : str -> str := fun _ => frag.

Definition str_eqb (a b : str) : bool := if list_eq_dec ascii_dec a b then true else false.

Definition read_file (p : str) : M str :=
  fun st => match contents st p with
            | Some c => (inl c, st)
            | None => (inr FileNotFoundError, st)
            end.

Definition write_file (p c : str) : M unit :=
  fun st => (inl tt, mk_fs (fun p' => if str_eqb p' p then Some c else contents st p')
                           (writes st ++ [(p, c)])).

Definition raise_on_none {A} (o : option A) (e : exn) : M A :=
  fun st => match o with Some a => (inl a, st) | None => (inr e, st) end.

(** [update_html], for the target path [html_file] ([HTML_FILE]). *)
Definition update_html (html_file new_card_html : str) : M unit :=
  html_content <- read_file html_file ;;
  let backup_file := html_file ++ lit ".bak" in
  _ <- write_file backup_file html_content ;;
  new_content <- raise_on_none (reading_sub new_card_html html_content) ReError ;;
  write_file html_file new_content.

(** ** The driver

    [main] runs over the files of [update_html] and the lines printed on
    standard output. [sys.exit(1)] and the exceptions that escape [main]
    end the run with the state reached so far. The paths [YAML_FILE] and
    [HTML_FILE] are computed from the script location; they are the
    parameters [yaml_file] and [html_file]. *)

Inductive main_exn := SystemExit (code : nat) | IndexError | FileExn (e : exn).

Record world := mk_world {
  wfs : fs;
  out : list str
}.

Definition W (A : Type) := world -> (A + main_exn) * world.

Definition wret {A} (a : A) : W A := fun w => (inl a, w).
Definition wbind {A B} (m : W A) (k : A -> W B) : W B :=
  fun w => match m w with
           | (inl a, w') => k a w'
           | (inr e, w') => (inr e, w')
           end.
Notation "x <~ m ;; k" := (wbind m (fun x => k)) (at level 61, m at next level, right associativity).

Definition wraise {A} (e : main_exn) : W A := fun w => (inr e, w).

(** [print(s)]: one line of output, without its newline. *)
Definition print (s : str) : W unit := fun w => (inl tt, mk_world (wfs w) (out w ++ [s])).

Definition sys_exit (code : nat) : W unit := wraise (SystemExit code).

Definition path_exists (p : str) : W bool :=
  fun w => (inl (match contents (wfs w) p with Some _ => true | None => false end), w).

(** A step of the file system; its exceptions escape [main]. *)
Definition lift_fs {A} (m : M A) : W A :=
  fun w => match m (wfs w) with
           | (inl a, st) => (inl a, mk_world st (out w))
           | (inr e, st) => (inr (FileExn e), mk_world st (out w))
           end.

(** [parse_yaml(filepath)] with its [open]. *)
Definition parse_yaml_file (filepath : str) : M reading :=
  content <- read_file filepath ;;
  ret (parse_yaml content).

(** The decimal digits of [n], last digit first. *)
Fixpoint digits_rev (fuel n : nat) : str :=
  match fuel with
  | O => []
  | S f => ascii_of_nat (48 + n mod 10) :: (if n <? 10 then [] else digits_rev f (n / 10))
  end.

(** [f'{n}'] for a natural number. *)
Definition str_of_nat (n : nat) : str := rev (digits_rev (S n) n).

(** [for i, book in enumerate(books, i): print(f'  {i}. {book[title]}')] *)
Fixpoint print_titles (i : nat) (bs : list book) : W unit :=
  match bs with
  | [] => wret tt
  | b :: bs' =>
      _ <~ print (lit "  " ++ str_of_nat i ++ lit ". " ++ title b) ;;
      print_titles (S i) bs'
  end.

Definition commit_line (data : reading) : str :=
  let t := match books data with b :: _ => title b | [] => lit "update" end in
  q "  3. Commit: git add . && git commit -m 'Reading: " ++ t ++ q "'".

Definition main (yaml_file html_file : str) : W unit :=
  ok <~ path_exists yaml_file ;;
  _ <~ (if ok then wret tt
        else _ <~ print (lit "Error: " ++ yaml_file ++ lit " not found") ;; sys_exit 1) ;;
  _ <~ print (lit "Reading configuration from " ++ yaml_file ++ lit "...") ;;
  data <~ lift_fs (parse_yaml_file yaml_file) ;;
  _ <~ print (lit "Found " ++ str_of_nat (length (books data)) ++ lit " book(s)") ;;
  _ <~ print_titles 1 (books data) ;;
  new_html <~ (match generate_html data with
               | Some h => wret h
               | None => wraise IndexError
               end) ;;
  _ <~ lift_fs (update_html html_file new_html) ;;
  _ <~ print (nl :: lit "Updated index.html successfully!") ;;
  _ <~ print [] ;;
  _ <~ print (lit "Next steps:") ;;
  _ <~ print (lit "  1. Review the changes: git diff index.html") ;;
  _ <~ print (lit "  2. Test locally: serve .") ;;
  print (commit_line data).

(** The lines [main] prints for the books, from number [i] on. *)
Definition title_lines (i : nat) (bs : list book) : list str :=
  map (fun p => lit "  " ++ str_of_nat (fst p) ++ lit ". " ++ title (snd p)) (combine (seq i (length bs)) bs).

(** The lines [main] prints after a successful update. *)
Definition closing_lines (data : reading) : list str :=
  [nl :: lit "Updated index.html successfully!"; []; lit "Next steps:";
   lit "  1. Review the changes: git diff index.html"; lit "  2. Test locally: serve .";
   commit_line data].

(** * Sample inputs *)

Definition pp_book : book :=
  mk_book (lit "The Pragmatic Programmer") (lit "Hunt & Thomas") (lit "pp.jpg")
          (lit "https://example.com/pp") (lit "Example") (lit "A classic.").

Definition sample_reading : reading :=
  mk_reading [pp_book] (lit "Currently exploring systems design.").

Definition sample_frag : str :=
  match generate_html sample_reading with Some f => f | None => [] end.

Definition third_book : book :=
  mk_book (lit "Third Book") (lit "Someone") (lit "third.jpg")
          (lit "https://example.com/third") (lit "Example") (lit "Extra.").

Definition three_reading : reading :=
  mk_reading [pp_book; pp_book; third_book] (lit "Three at once.").

(** A title that holds the end marker text. *)
Definition marker_title_reading : reading :=
  mk_reading [mk_book (lit "<!-- Latest Creative Work -->") [] (lit "x.jpg") [] [] []] [].

(** A summary that holds a backslash escape unknown to [re]. *)
Definition dev_reading : reading :=
  mk_reading [pp_book] (lit "Notes kept in C:\dev").

Definition index_path : str := lit "index.html".

Definition fs_with (p d : str) : fs :=
  mk_fs (fun p' => if str_eqb p' p then Some d else None) [].

Definition yaml_path : str := lit "scripts/reading.yaml".

Definition sample_yaml : str := lit "summary: Currently exploring systems design.
books:
  - title: The Pragmatic Programmer
    author: Hunt & Thomas
    image: pp.jpg
    buy_url: https://example.com/pp
    buy_label: Example
    description: A classic.
".

(** A site with a configuration [y] and a page [d]. *)
Definition site_world (y d : str) : world :=
  mk_world (mk_fs (fun p => if str_eqb p yaml_path then Some y
                            else if str_eqb p index_path then Some d else None) []) [].

Definition sample_page : str :=
  lit "<html><body>" ++ start_marker ++ lit "old card" ++ end_marker ++ lit "</body></html>".

(** * Lemmas *)

(** ** Prefixes and occurrences *)

Lemma starts_with_app (p x : str) : starts_with p (p ++ x) = true.
Proof.
  induction p as [|c p IH]; simpl; [reflexivity|].
  rewrite Ascii.eqb_refl, IH. reflexivity.
Qed.

Lemma starts_with_true (p s : str) :
  starts_with p s = true -> s = p ++ skipn (length p) s.
Proof.
  revert s; induction p as [|c p IH]; intros [|d s] H; simpl in *; try easy.
  apply andb_prop in H as [Hc Hp]. apply Ascii.eqb_eq in Hc. subst d.
  f_equal. apply IH, Hp.
Qed.

Lemma starts_with_ext (p u v : str) :
  length p <= length u -> starts_with p (u ++ v) = starts_with p u.
Proof.
  revert u; induction p as [|c p IH]; intros [|d u] H; simpl in *; try easy; try lia.
  rewrite IH by lia. reflexivity.
Qed.

Lemma starts_with_short (p u x : str) :
  starts_with p (u ++ x) = true -> length u <= length p -> u = firstn (length u) p.
Proof.
  revert p; induction u as [|d u IH]; intros [|c p] H Hl; simpl in *; try easy; try lia.
  apply andb_prop in H as [Hc Hp]. apply Ascii.eqb_eq in Hc. subst d.
  f_equal. apply IH; [exact Hp | lia].
Qed.

Lemma starts_with_occurs (p s : str) : starts_with p s = true -> occurs p s = true.
Proof. destruct s; simpl; intros ->; reflexivity. Qed.

Lemma occurs_app_r (p a b : str) : occurs p b = true -> occurs p (a ++ b) = true.
Proof.
  induction a as [|c a IH]; simpl; [easy|].
  intros H. rewrite IH by exact H. apply orb_true_r.
Qed.

Lemma starts_with_app_r (p s t : str) :
  starts_with p s = true -> starts_with p (s ++ t) = true.
Proof.
  revert s; induction p as [|c p IH]; intros [|d s] H; simpl in *; try easy.
  apply andb_prop in H as [H1 H2]. rewrite H1, (IH s H2). reflexivity.
Qed.

Lemma occurs_app_l (p a b : str) : occurs p a = true -> occurs p (a ++ b) = true.
Proof.
  induction a as [|c a IH]; simpl.
  - destruct p; simpl; intros H; [destruct b; reflexivity | discriminate].
  - intros H. apply orb_true_iff in H as [H|H].
    + apply (starts_with_app_r p (c :: a) b) in H. simpl in H. rewrite H. reflexivity.
    + rewrite IH by exact H. apply orb_true_r.
Qed.

Lemma occurs_app_false (p a b : str) :
  occurs p (a ++ b) = false -> occurs p a = false /\ occurs p b = false.
Proof.
  intros H. split.
  - destruct (occurs p a) eqn:E; [|reflexivity].
    rewrite (occurs_app_l p a b E) in H. discriminate.
  - destruct (occurs p b) eqn:E; [|reflexivity].
    rewrite (occurs_app_r p a b E) in H. discriminate.
Qed.

Lemma starts_with_of_occurs_false (p s : str) : occurs p s = false -> starts_with p s = false.
Proof. destruct s; simpl; intros H; apply orb_false_iff in H; apply H. Qed.

Lemma occurs_cons_false (p : str) c s : occurs p (c :: s) = false -> occurs p s = false.
Proof. simpl. intros H. apply orb_false_iff in H. apply H. Qed.

Lemma skipn_length_app (a b : str) : skipn (length a) (a ++ b) = b.
Proof. induction a; simpl; auto. Qed.

(** ** The markers cannot overlap themselves *)

(** No non-empty text shorter than [p] followed by [p] starts with [p]. *)
Definition unbordered (p : str) : Prop :=
  forall u w, u <> [] -> length u < length p -> starts_with p (u ++ p ++ w) = false.

Definition border_check (p : str) : bool :=
  forallb (fun k => negb (starts_with p (firstn k p ++ p))) (seq 1 (length p - 1)).

Lemma unbordered_of_check (p : str) : border_check p = true -> unbordered p.
Proof.
  intros Hc u w Hu Hl.
  destruct (starts_with p (u ++ p ++ w)) eqn:E; [|reflexivity].
  exfalso.
  assert (Hu' : u = firstn (length u) p)
    by (apply (starts_with_short p u (p ++ w)); [exact E | lia]).
  unfold border_check in Hc. rewrite forallb_forall in Hc.
  assert (Hin : In (length u) (seq 1 (length p - 1))).
  { apply in_seq. destruct u; simpl in *; [congruence | lia]. }
  specialize (Hc _ Hin).
  rewrite app_assoc, starts_with_ext in E by (rewrite length_app; lia).
  rewrite Hu' in E. rewrite E in Hc. discriminate.
Qed.

Lemma start_marker_unbordered : unbordered start_marker.
Proof. apply unbordered_of_check. vm_compute. reflexivity. Qed.

Lemma end_marker_unbordered : unbordered end_marker.
Proof. apply unbordered_of_check. vm_compute. reflexivity. Qed.

(** A pattern absent from a non-empty [u] does not start at [u] when
    [u] is followed by the pattern. *)
Lemma no_early (p u w : str) :
  unbordered p -> u <> [] -> occurs p u = false -> starts_with p (u ++ p ++ w) = false.
Proof.
  intros Hb Hu Ho.
  destruct (le_lt_dec (length p) (length u)) as [Hl|Hl].
  - rewrite starts_with_ext by exact Hl. apply starts_with_of_occurs_false, Ho.
  - apply Hb; assumption.
Qed.

(** ** The lazy run and a match attempt *)

Lemma lazy_upto_end_eq (s : str) :
  lazy_upto_end s =
  if starts_with end_marker s then Some (end_marker, skipn (length end_marker) s)
  else match s with
       | [] => None
       | c :: s' => match lazy_upto_end s' with
                    | Some (m, r) => Some (c :: m, r)
                    | None => None
                    end
       end.
Proof. destruct s; reflexivity. Qed.

Lemma lazy_hit (x w : str) :
  occurs end_marker x = false ->
  lazy_upto_end (x ++ end_marker ++ w) = Some (x ++ end_marker, w).
Proof.
  induction x as [|c x IH]; intros Hx.
  - rewrite app_nil_l, lazy_upto_end_eq, starts_with_app, skipn_length_app. reflexivity.
  - rewrite lazy_upto_end_eq.
    rewrite (no_early end_marker (c :: x) w end_marker_unbordered) by easy.
    cbn [app]. rewrite IH by exact (occurs_cons_false _ _ _ Hx). reflexivity.
Qed.

Lemma lazy_none (s : str) : lazy_upto_end s = None -> occurs end_marker s = false.
Proof.
  induction s as [|c s IH]; intros H.
  - reflexivity.
  - rewrite lazy_upto_end_eq in H.
    destruct (starts_with end_marker (c :: s)) eqn:E; [discriminate|].
    destruct (lazy_upto_end s) as [[m r]|]; [discriminate|].
    simpl. rewrite IH by reflexivity. simpl in E. rewrite E. reflexivity.
Qed.

Lemma lazy_some (s m r : str) :
  lazy_upto_end s = Some (m, r) -> s = m ++ r /\ exists m0, m = m0 ++ end_marker.
Proof.
  revert m; induction s as [|c s IH]; intros m H.
  - discriminate.
  - rewrite lazy_upto_end_eq in H.
    destruct (starts_with end_marker (c :: s)) eqn:E.
    + injection H as <- <-. split; [apply starts_with_true, E | exists []; reflexivity].
    + destruct (lazy_upto_end s) as [[m1 r1]|] eqn:Hl; [|discriminate].
      injection H as <- <-. destruct (IH m1 eq_refl) as [-> [m0 ->]].
      split; [reflexivity | exists (c :: m0); reflexivity].
Qed.

Lemma match_at_some (s m r : str) :
  match_at s = Some (m, r) ->
  s = m ++ r /\ exists y, m = start_marker ++ y /\ occurs end_marker y = true.
Proof.
  unfold match_at. destruct (starts_with start_marker s) eqn:E; [|discriminate].
  destruct (lazy_upto_end (skipn (length start_marker) s)) as [[m1 r1]|] eqn:Hl;
    [|discriminate].
  intros H. injection H as <- <-.
  destruct (lazy_some _ _ _ Hl) as [Hs [m0 ->]].
  split.
  - rewrite (starts_with_true _ _ E), Hs. rewrite app_assoc. reflexivity.
  - exists (m0 ++ end_marker). split; [reflexivity|].
    apply occurs_app_r, starts_with_occurs. reflexivity.
Qed.

Lemma match_at_hit (x w : str) :
  occurs end_marker x = false ->
  match_at (start_marker ++ x ++ end_marker ++ w) = Some (start_marker ++ x ++ end_marker, w).
Proof.
  intros Hx. unfold match_at. rewrite starts_with_app, skipn_length_app, lazy_hit by exact Hx.
  reflexivity.
Qed.

Lemma match_at_length (s m r : str) : match_at s = Some (m, r) -> length r < length s.
Proof.
  intros H. destruct (match_at_some _ _ _ H) as [-> [y [-> _]]].
  rewrite !length_app. unfold start_marker. simpl. lia.
Qed.

Lemma match_at_nil : match_at [] = None.
Proof. reflexivity. Qed.

(** ** The [re.sub] scan *)

Lemma match_at_not_start (s : str) : starts_with start_marker s = false -> match_at s = None.
Proof. intros H. unfold match_at. rewrite H. reflexivity. Qed.

Section Scan.

Variable ex : str -> str.

Lemma sub_n_fuel (n1 n2 : nat) (s : str) :
  length s <= n1 -> length s <= n2 -> sub_n n1 ex s = sub_n n2 ex s.
Proof.
  revert n2 s; induction n1 as [|n1 IH]; intros n2 s H1 H2.
  - destruct s; [|simpl in H1; lia]. destruct n2; reflexivity.
  - destruct n2 as [|n2]; [destruct s; [reflexivity | simpl in H2; lia]|].
    destruct s as [|c s']; [reflexivity|]. simpl.
    destruct (match_at (c :: s')) as [[m r]|] eqn:Hm.
    + pose proof (match_at_length _ _ _ Hm). simpl in *.
      f_equal. apply IH; lia.
    + simpl in *. f_equal. apply IH; lia.
Qed.

Lemma sub_all_nil : sub_all ex [] = [].
Proof. reflexivity. Qed.

Lemma sub_all_match (s m r : str) :
  match_at s = Some (m, r) -> sub_all ex s = ex m ++ sub_all ex r.
Proof.
  intros Hm. pose proof (match_at_length _ _ _ Hm) as Hl.
  destruct s as [|c s']; [discriminate|].
  unfold sub_all. cbn [length sub_n]. rewrite Hm. f_equal.
  apply sub_n_fuel; simpl in Hl; lia.
Qed.

Lemma sub_all_skip (c : ascii) (s : str) :
  match_at (c :: s) = None -> sub_all ex (c :: s) = c :: sub_all ex s.
Proof.
  intros Hm. unfold sub_all. cbn [length sub_n]. rewrite Hm. reflexivity.
Qed.

(** Without a match the text is left as it is. *)
Lemma sub_all_no_region (s : str) : has_region s = false -> sub_all ex s = s.
Proof.
  induction s as [|c s IH]; intros H; [reflexivity|].
  simpl in H. destruct (match_at (c :: s)) eqn:Hm; [discriminate|].
  rewrite sub_all_skip by exact Hm. f_equal. apply IH, H.
Qed.

(** Text without the start marker, before the start marker, is copied. *)
Lemma sub_all_prefix (pre t : str) :
  occurs start_marker pre = false ->
  sub_all ex (pre ++ start_marker ++ t) = pre ++ sub_all ex (start_marker ++ t).
Proof.
  induction pre as [|c pre IH]; intros H; [cbn [app]; reflexivity|].
  cbn [app]. rewrite sub_all_skip.
  - f_equal. apply IH, (occurs_cons_false _ _ _ H).
  - pose proof (no_early start_marker (c :: pre) t start_marker_unbordered
                  ltac:(easy) H) as E.
    exact (match_at_not_start _ E).
Qed.

(** The result either is the input or shares with it the text before the
    first match, which starts with the start marker. *)
Lemma sub_all_shape (s : str) :
  sub_all ex s = s \/
  exists g y m r, s = g ++ m ++ r /\ m = start_marker ++ y /\ occurs end_marker y = true /\
                  match_at (m ++ r) = Some (m, r) /\ sub_all ex s = g ++ ex m ++ sub_all ex r.
Proof.
  induction s as [s IH] using (induction_ltof1 _ (@length ascii)).
  destruct s as [|c s']; [left; reflexivity|].
  destruct (match_at (c :: s')) as [[m r]|] eqn:Hm.
  - right. destruct (match_at_some _ _ _ Hm) as [Hs [y [Hy Ho]]].
    exists [], y, m, r. rewrite <- Hs. repeat split; auto.
    apply sub_all_match, Hm.
  - rewrite sub_all_skip by exact Hm.
    destruct (IH s' ltac:(unfold ltof; simpl; lia)) as [H|[g [y [m [r H]]]]].
    + left. rewrite H. reflexivity.
    + right. exists (c :: g), y, m, r. decompose record H.
      repeat split; auto; [rewrite H0; reflexivity | rewrite H5; reflexivity].
Qed.

End Scan.

(** [re.sub] with a replacement holding no backslash inserts it as is. *)
Lemma reading_sub_literal (frag doc : str) :
  existsb (Ascii.eqb bslash) frag = false ->
  reading_sub frag doc = Some (sub_all (fun _ => frag) doc).
Proof. intros H. unfold reading_sub, repl_filter. rewrite H. reflexivity. Qed.

(** With a template that compiles, a text without a match is unchanged. *)
Lemma reading_sub_no_region (frag doc : str) (ex : str -> str) :
  repl_filter frag = Some ex -> has_region doc = false -> reading_sub frag doc = Some doc.
Proof.
  intros Hf Hd. unfold reading_sub. rewrite Hf, sub_all_no_region by exact Hd. reflexivity.
Qed.

Lemma starts_with_frame_cons (p : str) (c : ascii) (a v : str) :
  starts_with p (c :: a ++ p ++ v) = starts_with p (c :: a ++ p).
Proof.
  change (c :: a ++ p ++ v) with ((c :: a) ++ p ++ v).
  change (c :: a ++ p) with ((c :: a) ++ p).
  rewrite app_assoc. apply starts_with_ext. rewrite length_app. lia.
Qed.

(** ** Patching twice with a well-formed card *)

Section Idempotence.

Variables (frag x : str).
Hypothesis frag_shape : frag = start_marker ++ x ++ end_marker.
Hypothesis x_no_end : occurs end_marker x = false.

Lemma match_at_frag (w : str) : match_at (frag ++ w) = Some (frag, w).
Proof.
  rewrite frag_shape, <- !app_assoc. apply match_at_hit, x_no_end.
Qed.

Lemma sub_all_frag_app (w : str) : sub_all (const_repl frag) (frag ++ w) = frag ++ sub_all (const_repl frag) w.
Proof. exact (sub_all_match (const_repl frag) (frag ++ w) frag w (match_at_frag w)). Qed.

Lemma match_at_after_sub (c : ascii) (s : str) :
  match_at (c :: s) = None -> match_at (c :: sub_all (const_repl frag) s) = None.
Proof.
  intros Hm.
  destruct (sub_all_shape (const_repl frag) s) as [H|[g [y [m [r [Hs [Hmy [Hy [_ Hout]]]]]]]]].
  - rewrite H. exact Hm.
  - rewrite Hout. subst s m. unfold match_at in *.
    change (const_repl frag (start_marker ++ y)) with frag. rewrite frag_shape.
    rewrite <- !app_assoc. rewrite <- !app_assoc in Hm.
    rewrite starts_with_frame_cons. rewrite starts_with_frame_cons in Hm.
    destruct (starts_with start_marker (c :: g ++ start_marker)); [|reflexivity].
    exfalso.
    replace (c :: g ++ start_marker ++ y ++ r)
      with (((c :: g) ++ start_marker) ++ y ++ r) in Hm by (rewrite <- !app_assoc; reflexivity).
    assert (Hl : length start_marker <= length ((c :: g) ++ start_marker))
      by (rewrite length_app; lia).
    rewrite skipn_app, (proj2 (Nat.sub_0_le _ _) Hl) in Hm. change (skipn 0 (y ++ r)) with (y ++ r) in Hm.
    revert Hm.
    destruct (lazy_upto_end (skipn (length start_marker) ((c :: g) ++ start_marker) ++ y ++ r))
      as [[m1 r1]|] eqn:Hz; [discriminate|intros _].
    apply lazy_none in Hz.
    rewrite (occurs_app_r _ _ _ (occurs_app_l _ _ _ Hy)) in Hz. discriminate.
Qed.

Lemma sub_all_idempotent (s : str) : sub_all (const_repl frag) (sub_all (const_repl frag) s) = sub_all (const_repl frag) s.
Proof.
  induction s as [s IH] using (induction_ltof1 _ (@length ascii)).
  destruct s as [|c s']; [reflexivity|].
  destruct (match_at (c :: s')) as [[m r]|] eqn:Hm.
  - pose proof (match_at_length _ _ _ Hm) as Hl.
    rewrite (sub_all_match (const_repl frag) _ _ _ Hm). change ((const_repl frag) m) with frag.
    rewrite sub_all_frag_app. f_equal. apply IH. exact Hl.
  - rewrite (sub_all_skip (const_repl frag) _ _ Hm).
    rewrite (sub_all_skip (const_repl frag) _ _ (match_at_after_sub _ _ Hm)).
    f_equal. apply IH. unfold ltof. simpl. lia.
Qed.

End Idempotence.

(** ** The rendered card *)

Lemma card_markers (a b c d : str) :
  exists x, card a b c d = start_marker ++ x ++ end_marker.
Proof.
  unfold card.
  match goal with
  | |- exists x, q ?l1 ++ a ++ q ?l2 ++ b ++ q ?l3 ++ c ++ q ?l4 ++ d ++ q ?l5 = _ =>
      set (A := skipn (length start_marker) (q l1));
      set (B := firstn (length (q l5) - length end_marker) (q l5));
      assert (E1 : q l1 = start_marker ++ A) by (subst A; vm_compute; reflexivity);
      assert (E5 : q l5 = B ++ end_marker) by (subst B; vm_compute; reflexivity);
      exists (A ++ a ++ q l2 ++ b ++ q l3 ++ c ++ q l4 ++ d ++ B);
      rewrite E1, E5, <- !app_assoc; reflexivity
  end.
Qed.

Lemma generate_html_some (data : reading) (frag : str) :
  generate_html data = Some frag ->
  exists img, image_html (books data) = Some img /\
              frag = card img (summary data) (details_html (books data)) (actions_html (books data)).
Proof.
  unfold generate_html. destruct (image_html (books data)) as [img|]; [|discriminate].
  intros H. injection H as <-. exists img. split; reflexivity.
Qed.

Lemma generate_html_markers (data : reading) (frag : str) :
  generate_html data = Some frag -> exists x, frag = start_marker ++ x ++ end_marker.
Proof.
  intros H. destruct (generate_html_some _ _ H) as [img [_ ->]]. apply card_markers.
Qed.

Lemma generate_html_nonempty (data : reading) :
  books data <> [] -> exists frag, generate_html data = Some frag.
Proof.
  unfold generate_html, image_html.
  destruct (books data) as [|b0 [|b1 rest]]; [easy | eexists; reflexivity | eexists; reflexivity].
Qed.

(** A region found in a text is still found after it is patched. *)
Lemma has_region_app (g t : str) : has_region t = true -> has_region (g ++ t) = true.
Proof.
  induction g as [|c g IH]; intros H; [exact H|].
  cbn [app has_region]. destruct (match_at (c :: g ++ t)); [reflexivity|]. apply IH, H.
Qed.

Lemma has_region_of_match (s m r : str) : match_at s = Some (m, r) -> has_region s = true.
Proof.
  intros H. destruct s as [|c s]; [discriminate H|].
  cbn [has_region]. rewrite H. reflexivity.
Qed.

Lemma has_region_of_start (s : str) :
  starts_with start_marker s = true -> occurs end_marker (skipn (length start_marker) s) = true ->
  has_region s = true.
Proof.
  intros Hs Ho.
  destruct (lazy_upto_end (skipn (length start_marker) s)) as [[m r]|] eqn:Hz.
  - apply (has_region_of_match s (start_marker ++ m) r). unfold match_at. rewrite Hs, Hz. reflexivity.
  - apply lazy_none in Hz. congruence.
Qed.

(** ** Searches that find nothing *)

Lemma search_bol_none (key : str) (f : str -> option str) (bol : bool) (s : str) :
  Forall (fun t => starts_with key t = false) (line_starts_from bol s) ->
  search_bol (fun t => bind_opt (after_key key t) f) bol s = None.
Proof.
  revert bol; induction s as [|c s IH]; intros bol H.
  - destruct bol; simpl in *; [|reflexivity].
    inversion_clear H as [|? ? Hk _]. unfold after_key. rewrite Hk. reflexivity.
  - cbn [line_starts_from] in H. apply Forall_app in H as [H1 H2].
    cbn [search_bol]. rewrite (IH _ H2).
    destruct bol; [|reflexivity].
    inversion_clear H1 as [|? ? Hk _]. unfold after_key. rewrite Hk. reflexivity.
Qed.

Lemma search_none (key : str) (f : str -> option str) (s : str) :
  occurs key s = false -> search (fun t => bind_opt (after_key key t) f) s = None.
Proof.
  induction s as [|c s IH]; intros H.
  - simpl. unfold after_key. rewrite (starts_with_of_occurs_false _ _ H). reflexivity.
  - cbn [search]. unfold after_key at 1.
    rewrite (starts_with_of_occurs_false _ _ H). apply IH, (occurs_cons_false _ _ _ H).
Qed.

(** ** Writes of the patcher *)

Lemma str_eqb_refl (a : str) : str_eqb a a = true.
Proof. unfold str_eqb. destruct (list_eq_dec ascii_dec a a); congruence. Qed.

Lemma str_eqb_backup (p : str) : str_eqb (p ++ lit ".bak") p = false.
Proof.
  unfold str_eqb. destruct (list_eq_dec ascii_dec (p ++ lit ".bak") p) as [H|H]; [|reflexivity].
  apply (f_equal (@length ascii)) in H. rewrite length_app in H. simpl in H. lia.
Qed.

(** ** Templates built from a card keep its markers *)

Lemma end_marker_split : end_marker = "<"%char :: end_tail.
Proof. reflexivity. Qed.

Lemma eqb_bslash_sym (c : ascii) : Ascii.eqb c bslash = Ascii.eqb bslash c.
Proof. destruct (Ascii.eqb_spec c bslash), (Ascii.eqb_spec bslash c); congruence. Qed.

Lemma parse_plain (n : nat) (c : ascii) (s : str) :
  Ascii.eqb c bslash = false ->
  parse_template_n (S n) (c :: s) =
  match parse_template_n n s with Some t => Some (TLit c :: t) | None => None end.
Proof. intros H. cbn [parse_template_n]. rewrite H. reflexivity. Qed.

Lemma parse_no_bslash (s : str) (n : nat) :
  existsb (Ascii.eqb bslash) s = false -> length s <= n ->
  parse_template_n n s = Some (map TLit s).
Proof.
  revert n; induction s as [|c s IH]; intros n Hb Hl.
  - destruct n; reflexivity.
  - destruct n as [|n]; [simpl in Hl; lia|].
    simpl in Hb. apply orb_false_iff in Hb as [Hc Hb].
    rewrite parse_plain by (rewrite eqb_bslash_sym; exact Hc).
    rewrite IH by (exact Hb || (simpl in Hl; lia)). reflexivity.
Qed.

Lemma parse_prefix (p w : str) (n : nat) :
  existsb (Ascii.eqb bslash) p = false -> length (p ++ w) <= n ->
  parse_template_n n (p ++ w) =
  match parse_template_n (n - length p) w with Some t => Some (map TLit p ++ t) | None => None end.
Proof.
  revert n; induction p as [|c p IH]; intros n Hb Hl.
  - rewrite Nat.sub_0_r, app_nil_l. destruct (parse_template_n n w); reflexivity.
  - destruct n as [|n]; [simpl in Hl; lia|].
    simpl in Hb. apply orb_false_iff in Hb as [Hc Hb].
    cbn [app]. rewrite parse_plain by (rewrite eqb_bslash_sym; exact Hc).
    rewrite IH by (exact Hb || (simpl in Hl; lia)).
    simpl. destruct (parse_template_n (n - length p) w); reflexivity.
Qed.

(** A group name that runs into the end marker holds a character other
    than [0]. *)
Lemma until_gt_end (z name s4 : str) :
  until_gt (z ++ end_marker) = Some (name, s4) ->
  (exists z4, s4 = z4 ++ end_marker /\ length z4 < length z) \/
  existsb (fun ch => negb (Ascii.eqb ch "0")) name = true.
Proof.
  revert name s4; induction z as [|c z IH]; intros name s4 H.
  - vm_compute in H. injection H as <- <-. right. reflexivity.
  - cbn [app until_gt] in H. destruct (Ascii.eqb c ">").
    + injection H as <- <-. left. exists z. split; [reflexivity | simpl; lia].
    + destruct (until_gt (z ++ end_marker)) as [[n1 r1]|] eqn:Hu; [|discriminate].
      injection H as <- <-. destruct (IH _ _ eq_refl) as [[z4 [-> Hl]]|Hx].
      * left. exists z4. split; [reflexivity | simpl; lia].
      * right. simpl. rewrite Hx. apply orb_true_r.
Qed.

Lemma group0_name_false (name : str) :
  existsb (fun ch => negb (Ascii.eqb ch "0")) name = true -> group0_name name = false.
Proof.
  intros H. destruct name as [|c name]; [reflexivity|].
  unfold group0_name. apply not_true_is_false. intros Hf.
  rewrite forallb_forall in Hf. apply existsb_exists in H as [ch [Hin Hch]].
  rewrite (Hf ch Hin) in Hch. discriminate.
Qed.

Lemma octal_tail_end (z : str) :
  exists ds z3, octal_tail (z ++ end_marker) = (ds, z3 ++ end_marker) /\ length z3 <= length z.
Proof.
  destruct z as [|a [|b z3]].
  - exists [], []. split; reflexivity.
  - cbn [app octal_tail]. rewrite end_marker_split.
    destruct (is_octal a).
    + exists [a], []. split; [reflexivity | simpl; lia].
    + exists [], [a]. split; [reflexivity | simpl; lia].
  - cbn [app octal_tail].
    destruct (is_octal a); [destruct (is_octal b)|].
    + exists [a; b], z3. split; [reflexivity | simpl; lia].
    + exists [a], (b :: z3). split; [reflexivity | simpl; lia].
    + exists [], (a :: b :: z3). split; reflexivity.
Qed.

Ltac cons_it_inv H :=
  match type of H with
  | match ?o with Some _ => _ | None => None end = Some _ =>
      let t' := fresh "t" in let E := fresh "Ep" in
      destruct o as [t'|] eqn:E; [|discriminate H]
  end.

(** Whatever a template compiles to, the end marker at its end stays
    literal text. *)
Lemma parse_keeps_end (n : nat) (z : str) (t : list titem) :
  length (z ++ end_marker) <= n -> parse_template_n n (z ++ end_marker) = Some t ->
  exists t0, t = t0 ++ map TLit end_marker.
Proof.
  revert z t; induction n as [|n IH]; intros z t Hl H.
  - rewrite length_app in Hl. unfold end_marker in Hl. simpl in Hl. lia.
  - destruct z as [|c z].
    + rewrite parse_no_bslash in H by (reflexivity || exact Hl).
      injection H as <-. exists []. reflexivity.
    + rewrite length_app in Hl. simpl in Hl.
      destruct (Ascii.eqb c bslash) eqn:Ec.
      * apply Ascii.eqb_eq in Ec. subst c.
        destruct z as [|d z].
        -- cbn [app] in H. rewrite end_marker_split in H. cbn -[end_tail] in H.
           rewrite parse_no_bslash in H
             by (reflexivity || (change (length end_tail) with 28; simpl in Hl; lia)).
           injection H as <-. exists [TLit bslash]. reflexivity.
        -- cbn [app parse_template_n] in H. rewrite Ascii.eqb_refl in H.
           destruct (Ascii.eqb d "g") eqn:Eg.
           ++ destruct z as [|lt z3].
              ** rewrite app_nil_l in H. vm_compute in H. discriminate H.
              ** cbn [app] in H. destruct (Ascii.eqb lt "<"); [|discriminate H].
                 destruct (until_gt (z3 ++ end_marker)) as [[name s4]|] eqn:Hu; [|discriminate H].
                 destruct (until_gt_end _ _ _ Hu) as [[z4 [-> Hz4]]|Hx].
                 --- destruct (group0_name name); [|discriminate H].
                     cons_it_inv H. injection H as <-.
                     destruct (IH z4 _ ltac:(rewrite length_app in *; simpl in *; lia) Ep) as [u ->].
                     exists (TGroup0 :: u). reflexivity.
                 --- rewrite (group0_name_false _ Hx) in H. discriminate H.
           ++ destruct (Ascii.eqb d "0") eqn:E0.
              ** destruct (octal_tail_end z) as [ds [z3 [Ho Hz3]]]. rewrite Ho in H.
                 cons_it_inv H. injection H as <-.
                 destruct (IH z3 _ ltac:(rewrite length_app in *; simpl in *; lia) Ep) as [u ->].
                 eexists (_ :: u). reflexivity.
              ** destruct (is_digit d) eqn:Ed.
                 --- destruct z as [|e [|f z3]].
                     +++ rewrite app_nil_l, end_marker_split in H. cbn -[end_tail] in H.
                         rewrite andb_false_r in H. discriminate H.
                     +++ cbn [app] in H. rewrite end_marker_split in H. cbn -[end_tail] in H.
                         rewrite andb_false_r in H. discriminate H.
                     +++ cbn [app] in H.
                         destruct (is_octal d && is_octal e && is_octal f); [|discriminate H].
                         destruct (octal_value [d; e; f] <=? 255); [|discriminate H].
                         cons_it_inv H. injection H as <-.
                         destruct (IH z3 _ ltac:(rewrite length_app in *; simpl in *; lia) Ep)
                           as [u ->].
                         eexists (_ :: u). reflexivity.
                 --- destruct (simple_escape d) as [e|].
                     +++ cons_it_inv H. injection H as <-.
                         destruct (IH z _ ltac:(rewrite length_app in *; simpl in *; lia) Ep) as [u ->].
                         exists (TLit e :: u). reflexivity.
                     +++ destruct (is_ascii_letter d); [discriminate H|].
                         cons_it_inv H. injection H as <-.
                         cons_it_inv Ep. injection Ep as <-.
                         destruct (IH z _ ltac:(rewrite length_app in *; simpl in *; lia) Ep0)
                           as [u ->].
                         exists (TLit bslash :: TLit d :: u). reflexivity.
      * cbn [app] in H. rewrite parse_plain in H by exact Ec. cons_it_inv H. injection H as <-.
        destruct (IH z _ ltac:(rewrite length_app; simpl in *; lia) Ep) as [u ->].
        exists (TLit c :: u). reflexivity.
Qed.

Lemma expand_lits (s m : str) : expand (map TLit s) m = s.
Proof. induction s as [|c s IH]; [reflexivity|]. simpl. f_equal. exact IH. Qed.

Lemma expand_app (t u : list titem) (m : str) : expand (t ++ u) m = expand t m ++ expand u m.
Proof. unfold expand. apply flat_map_app. Qed.

(** Every replacement [re.sub] accepts for a card expands, whatever it
    matched, to a text that starts with the start marker and ends with the
    end marker. *)
Lemma repl_filter_card (x : str) (ex : str -> str) :
  repl_filter (start_marker ++ x ++ end_marker) = Some ex ->
  forall m, exists y, ex m = start_marker ++ y ++ end_marker.
Proof.
  unfold repl_filter. intros H m.
  destruct (existsb (Ascii.eqb bslash) (start_marker ++ x ++ end_marker)).
  - unfold parse_template in H.
    rewrite parse_prefix in H by (reflexivity || lia).
    destruct (parse_template_n _ (x ++ end_marker)) as [t'|] eqn:Ep; [|discriminate H].
    assert (ex = expand (map TLit start_marker ++ t')) as -> by congruence.
    apply parse_keeps_end in Ep as [t0 ->]; [|rewrite !length_app; lia].
    exists (expand t0 m). rewrite !expand_app, !expand_lits. reflexivity.
  - injection H as <-. exists x. reflexivity.
Qed.

(** * Examples from the specification *)

(** [text] between double quotes. *)
Definition quoted (text : string) : str := [dq] ++ lit text ++ [dq].

Definition spec_yaml : str :=
  lit "summary: " ++ quoted "Currently exploring systems design." ++ [nl] ++
  lit "books:" ++ [nl] ++
  lit "  - title: " ++ quoted "Ender's Game" ++ [nl] ++
  lit "    image: cover.jpg" ++ [nl] ++
  lit "    description: " ++ quoted "A classic." ++ [nl].

Example parse_spec_yaml :
  parse_yaml spec_yaml =
  mk_reading [mk_book (lit "Ender's Game") [] (lit "cover.jpg") [] [] (lit "A classic.")]
             (lit "Currently exploring systems design.").
Proof. vm_compute. reflexivity. Qed.

Example details_item_pp :
  details_item pp_book = lit "<li>The Pragmatic Programmer (Hunt & Thomas): A classic.</li>".
Proof. reflexivity. Qed.

Example details_item_no_author :
  details_item (mk_book (lit "Title") [] [] [] [] (lit "Description"))
  = lit "<li>Title: Description</li>".
Proof. reflexivity. Qed.

Example sample_frag_image :
  occurs (q "<img alt='The Pragmatic Programmer' src='/assets/img/pp.jpg' style='width: 100%;'")
         sample_frag = true.
Proof. vm_compute. reflexivity. Qed.

Example two_books_two_items :
  details_html [pp_book; third_book] =
  details_item pp_book ++ item_sep ++ details_item third_book.
Proof. reflexivity. Qed.

(** * Claims *)

(** C1 (amended). Patching [pre ++ start ++ mid ++ end ++ post], where
    [pre] holds no start marker and [mid] no end marker, yields [pre], the
    fragment, then [post] with its own regions replaced in turn: every
    region is replaced, not only the first. When [post] holds no further
    region, the text before the start marker and after the end marker is
    kept byte for byte. Stated for a fragment with no backslash, which
    [re.sub] inserts literally. *)
Theorem update_html_replaces_region (frag pre mid post : str) :
  existsb (Ascii.eqb bslash) frag = false ->
  occurs start_marker pre = false ->
  occurs end_marker mid = false ->
  reading_sub frag (pre ++ start_marker ++ mid ++ end_marker ++ post)
    = Some (pre ++ frag ++ sub_all (fun _ => frag) post) /\
  (has_region post = false ->
   reading_sub frag (pre ++ start_marker ++ mid ++ end_marker ++ post) = Some (pre ++ frag ++ post)).
Proof.
  intros Hb Hpre Hmid.
  assert (H : reading_sub frag (pre ++ start_marker ++ mid ++ end_marker ++ post)
              = Some (pre ++ frag ++ sub_all (fun _ => frag) post)).
  { rewrite reading_sub_literal by exact Hb. f_equal.
    rewrite sub_all_prefix by exact Hpre. f_equal.
    exact (sub_all_match (fun _ => frag) _ _ _ (match_at_hit mid post Hmid)). }
  split; [exact H|].
  intros Hpost. rewrite H, sub_all_no_region by exact Hpost. reflexivity.
Qed.

Lemma update_html_replaces_region_witness :
  existsb (Ascii.eqb bslash) sample_frag = false /\
  occurs start_marker (lit "<html><body>") = false /\
  occurs end_marker (lit "old card") = false /\
  reading_sub sample_frag
    (lit "<html><body>" ++ start_marker ++ lit "old card" ++ end_marker ++ lit "</body></html>")
    = Some (lit "<html><body>" ++ sample_frag ++ sub_all (fun _ => sample_frag) (lit "</body></html>")) /\
  (has_region (lit "</body></html>") = false ->
   reading_sub sample_frag
     (lit "<html><body>" ++ start_marker ++ lit "old card" ++ end_marker ++ lit "</body></html>")
     = Some (lit "<html><body>" ++ sample_frag ++ lit "</body></html>")).
Proof.
  assert (H1 : existsb (Ascii.eqb bslash) sample_frag = false) by (vm_compute; reflexivity).
  assert (H2 : occurs start_marker (lit "<html><body>") = false) by (vm_compute; reflexivity).
  assert (H3 : occurs end_marker (lit "old card") = false) by (vm_compute; reflexivity).
  split; [exact H1|]. split; [exact H2|]. split; [exact H3|].
  apply (update_html_replaces_region sample_frag _ _ _ H1 H2 H3).
Defined.

(** C1 counterexample: with two marker regions both are replaced, so the
    text after the first end marker is not kept. *)
Lemma update_html_two_regions_counterexample :
  reading_sub sample_frag
    (lit "a" ++ start_marker ++ end_marker ++ lit "b" ++ start_marker ++ end_marker)
  = Some (lit "a" ++ sample_frag ++ lit "b" ++ sample_frag) /\
  reading_sub sample_frag
    (lit "a" ++ start_marker ++ end_marker ++ lit "b" ++ start_marker ++ end_marker)
  <> Some (lit "a" ++ sample_frag ++ lit "b" ++ start_marker ++ end_marker).
Proof.
  split.
  - vm_compute. reflexivity.
  - intros H. apply (f_equal (option_map (@length ascii))) in H.
    vm_compute in H. discriminate H.
Qed.

(** C2 (amended). For a configuration with at least one book whose card
    holds no backslash and holds the end marker only as its last
    characters, patching succeeds and patching the result again with the
    same card leaves it unchanged. *)
Theorem render_patch_idempotent (data : reading) (frag doc : str) :
  generate_html data = Some frag ->
  existsb (Ascii.eqb bslash) frag = false ->
  occurs end_marker (removelast frag) = false ->
  exists doc1, reading_sub frag doc = Some doc1 /\ reading_sub frag doc1 = Some doc1.
Proof.
  intros Hg Hb He.
  destruct (generate_html_markers _ _ Hg) as [x Hx].
  assert (Hxe : occurs end_marker x = false).
  { assert (Hn : end_marker <> []) by discriminate.
    assert (Hn' : x ++ end_marker <> []) by (intros Hz; apply app_eq_nil in Hz; tauto).
    rewrite Hx, (removelast_app _ Hn'), (removelast_app _ Hn) in He.
    apply occurs_app_false in He as [_ He]. apply occurs_app_false in He as [He _]. exact He. }
  exists (sub_all (fun _ => frag) doc).
  rewrite !reading_sub_literal by exact Hb. split; [reflexivity|].
  f_equal. exact (sub_all_idempotent frag x Hx Hxe doc).
Qed.

Lemma render_patch_idempotent_witness :
  generate_html sample_reading = Some sample_frag /\
  existsb (Ascii.eqb bslash) sample_frag = false /\
  occurs end_marker (removelast sample_frag) = false /\
  exists doc1, reading_sub sample_frag (lit "<p>") = Some doc1 /\
               reading_sub sample_frag doc1 = Some doc1.
Proof.
  assert (H1 : generate_html sample_reading = Some sample_frag) by (vm_compute; reflexivity).
  assert (H2 : existsb (Ascii.eqb bslash) sample_frag = false) by (vm_compute; reflexivity).
  assert (H3 : occurs end_marker (removelast sample_frag) = false) by (vm_compute; reflexivity).
  split; [exact H1|]. split; [exact H2|]. split; [exact H3|].
  exact (render_patch_idempotent sample_reading sample_frag (lit "<p>") H1 H2 H3).
Defined.

(** C2 counterexample: a title holding the end marker text makes the second
    patch stop at that inner marker and insert a second card. *)
Lemma render_patch_marker_title_counterexample :
  match generate_html marker_title_reading with
  | Some f =>
      exists doc1, reading_sub f (start_marker ++ end_marker) = Some doc1 /\
                   reading_sub f doc1 <> Some doc1
  | None => False
  end.
Proof.
  vm_compute. eexists. split; [reflexivity|].
  intros H. apply (f_equal (option_map (@length ascii))) in H.
  vm_compute in H. discriminate H.
Qed.

(** C3 (amended). With two or more books the image section is built from
    the first two books only, while the detail list and the action buttons
    take every book of the list. *)
Theorem render_image_first_two_lists_all (b0 b1 : book) (rest : list book) (s : str) :
  image_html (b0 :: b1 :: rest) = image_html [b0; b1] /\
  generate_html (mk_reading (b0 :: b1 :: rest) s) =
  option_map (fun img => card img s (join item_sep (map details_item (b0 :: b1 :: rest)))
                                    (join item_sep (map action_item (b0 :: b1 :: rest))))
             (image_html [b0; b1]).
Proof. split; reflexivity. Qed.

(** C3 counterexample: the third book of a list of three is listed in the
    details and among the actions. *)
Lemma render_three_books_counterexample :
  match generate_html three_reading with
  | Some f => occurs (lit "<li>Third Book (Someone): Extra.</li>") f = true /\
              occurs (lit "data-tooltip=") f = true /\
              occurs (lit "Find `Third Book` on Example") f = true
  | None => False
  end.
Proof. vm_compute. repeat split. Qed.

(** C4 (amended). The renderer returns a card exactly when the book list is
    non-empty; on an empty list it raises ([books[0]] is an [IndexError]). *)
Theorem generate_html_none_iff (data : reading) :
  generate_html data = None <-> books data = [].
Proof.
  unfold generate_html, image_html.
  destruct (books data) as [|b0 [|b1 rest]]; split; easy.
Qed.

(** C4 counterexample: zero books give no fragment. *)
Lemma generate_html_empty_counterexample :
  generate_html (mk_reading [] (lit "Nothing this month.")) = None.
Proof. reflexivity. Qed.

(** C5. An image value starting with [http://] or [https://] is kept;
    any other value is prefixed with [/assets/img/]. The resolution takes
    one image value and nothing else. *)
Theorem get_image_src_spec (v : str) :
  get_image_src v =
    (if starts_with (lit "http://") v || starts_with (lit "https://") v then v
     else lit "/assets/img/" ++ v) /\
  get_image_src (lit "cover.jpg") = lit "/assets/img/cover.jpg" /\
  get_image_src (lit "https://cdn.example.com/c.jpg") = lit "https://cdn.example.com/c.jpg" /\
  (forall b0 b1 b1',
     image_html [b0; b1] = image_html [b0; b1'] \/
     get_image_src (image b1) <> get_image_src (image b1') \/ title b1 <> title b1').
Proof.
  split; [|split; [reflexivity | split; [reflexivity|]]].
  - unfold get_image_src, startswith_any. simpl. rewrite orb_false_r. reflexivity.
  - intros b0 b1 b1'.
    destruct (list_eq_dec ascii_dec (get_image_src (image b1)) (get_image_src (image b1')))
      as [Hi|Hi]; [|right; left; exact Hi].
    destruct (list_eq_dec ascii_dec (title b1) (title b1')) as [Ht|Ht]; [|right; right; exact Ht].
    left. simpl. rewrite Hi, Ht. reflexivity.
Qed.

(** C6. With a card holding an escape unknown to [re] (a summary such as
    [C:\dev]), patching a document without markers raises [re.error]
    instead of leaving it unchanged: [re.sub] compiles its replacement
    as a template before it looks for a match. *)
Theorem update_html_bad_escape_raises :
  has_region (lit "<html><body>no card</body></html>") = false /\
  match generate_html dev_reading with
  | Some f =>
      reading_sub f (lit "<html><body>no card</body></html>") = None /\
      fst (update_html index_path f (fs_with index_path (lit "<html><body>no card</body></html>")))
        = inr ReError
  | None => False
  end.
Proof. vm_compute. split; [reflexivity | split; reflexivity]. Qed.

(** C7. Reading never fails: without a line starting with [summary:] the
    summary is empty; the quoted form of the summary and of each field is
    taken before the unquoted one; a field absent from its block, or
    matched by neither form, is the empty string; each book holds the six
    fields read from its block. *)
Theorem parse_yaml_tolerant (content : str) :
  (Forall (fun t => starts_with summary_key t = false) (line_starts_from true content) ->
   summary (parse_yaml content) = []) /\
  (forall g, summary_quoted content = Some g -> summary (parse_yaml content) = strip g) /\
  (forall g, summary_quoted content = None -> summary_unquoted content = Some g ->
             summary (parse_yaml content) = strip g) /\
  (summary_quoted content = None -> summary_unquoted content = None ->
   summary (parse_yaml content) = []) /\
  books (parse_yaml content) = map parse_book (book_blocks content) /\
  (forall blk, book_fields (parse_book blk)
               = map (fun f => parse_field f (lit "title:" ++ blk)) field_names) /\
  (forall field block, occurs (field_key field) block = false -> parse_field field block = []) /\
  (forall field block g, field_quoted field block = Some g -> parse_field field block = strip g) /\
  (forall field block g, field_quoted field block = None -> field_unquoted field block = Some g ->
                         parse_field field block = strip g) /\
  (forall field block, field_quoted field block = None -> field_unquoted field block = None ->
                       parse_field field block = []).
Proof.
  repeat split.
  - intros H. simpl. unfold parse_summary, summary_quoted, summary_unquoted.
    rewrite !search_bol_none by exact H. reflexivity.
  - intros g H. simpl. unfold parse_summary. rewrite H. reflexivity.
  - intros g H1 H2. simpl. unfold parse_summary. rewrite H1, H2. reflexivity.
  - intros H1 H2. simpl. unfold parse_summary. rewrite H1, H2. reflexivity.
  - intros field block H. unfold parse_field, field_quoted, field_unquoted.
    rewrite !search_none by exact H. reflexivity.
  - intros field block g H. unfold parse_field. rewrite H. reflexivity.
  - intros field block g H1 H2. unfold parse_field. rewrite H1, H2. reflexivity.
  - intros field block H1 H2. unfold parse_field. rewrite H1, H2. reflexivity.
Qed.

(** C8. Once the target is read, its backup at the target path plus
    [.bak] holds the text read, whatever follows; it is the first write of
    the run, and every later write goes to the target. *)
Theorem update_html_backup_first (html_file frag d : str) (st : fs) :
  contents st html_file = Some d ->
  let st' := snd (update_html html_file frag st) in
  contents st' (html_file ++ lit ".bak") = Some d /\
  exists later, writes st' = writes st ++ (html_file ++ lit ".bak", d) :: later /\
                Forall (fun w => fst w = html_file) later.
Proof.
  intros H. unfold update_html, bind, read_file, write_file, raise_on_none.
  rewrite H. cbn zeta.
  destruct (reading_sub frag d) as [nc|]; cbn [snd contents writes].
  - rewrite str_eqb_backup, str_eqb_refl. split; [reflexivity|].
    exists [(html_file, nc)]. rewrite <- app_assoc. split; [reflexivity|].
    constructor; [reflexivity | constructor].
  - rewrite str_eqb_refl. split; [reflexivity|].
    exists []. split; [reflexivity | constructor].
Qed.

Lemma update_html_backup_first_witness :
  contents (fs_with index_path (lit "<html></html>")) index_path = Some (lit "<html></html>") /\
  let st' := snd (update_html index_path sample_frag (fs_with index_path (lit "<html></html>"))) in
  contents st' (index_path ++ lit ".bak") = Some (lit "<html></html>") /\
  exists later, writes st' = writes (fs_with index_path (lit "<html></html>"))
                             ++ (index_path ++ lit ".bak", lit "<html></html>") :: later /\
                Forall (fun w => fst w = index_path) later.
Proof.
  assert (H : contents (fs_with index_path (lit "<html></html>")) index_path
              = Some (lit "<html></html>")) by (vm_compute; reflexivity).
  split; [exact H|].
  exact (update_html_backup_first index_path sample_frag _ _ H).
Defined.

(** C9. The detail list of a rendered card has one item per book, in list
    order, joined by the item separator: [title (author): description]
    when the author is non-empty, [title: description] otherwise. *)
Theorem details_one_item_per_book (data : reading) (frag : str) :
  generate_html data = Some frag ->
  (exists img, frag = card img (summary data) (join item_sep (map details_item (books data)))
                          (actions_html (books data))) /\
  (forall b, author b <> [] ->
     details_item b = q "<li>" ++ title b ++ q " (" ++ author b ++ q "): " ++ description b ++ q "</li>") /\
  (forall b, author b = [] ->
     details_item b = q "<li>" ++ title b ++ q ": " ++ description b ++ q "</li>").
Proof.
  intros H. split; [|split].
  - destruct (generate_html_some _ _ H) as [img [_ ->]]. exists img. reflexivity.
  - intros b Hb. unfold details_item. destruct (author b); [congruence | reflexivity].
  - intros b Hb. unfold details_item. rewrite Hb. reflexivity.
Qed.

Lemma details_one_item_per_book_witness :
  generate_html sample_reading = Some sample_frag /\
  (exists img, sample_frag = card img (summary sample_reading)
                 (join item_sep (map details_item (books sample_reading)))
                 (actions_html (books sample_reading))) /\
  (forall b, author b <> [] ->
     details_item b = q "<li>" ++ title b ++ q " (" ++ author b ++ q "): " ++ description b ++ q "</li>") /\
  (forall b, author b = [] ->
     details_item b = q "<li>" ++ title b ++ q ": " ++ description b ++ q "</li>").
Proof.
  assert (H : generate_html sample_reading = Some sample_frag) by (vm_compute; reflexivity).
  split; [exact H|].
  exact (details_one_item_per_book sample_reading sample_frag H).
Defined.

(** C10. A configuration with at least one book renders a card; every
    card starts with the start marker and ends with the end marker; so a
    document with a marker region, patched with a card, still has a marker
    region whenever the patch succeeds. *)
Theorem render_card_markers (data : reading) :
  (books data <> [] -> exists frag, generate_html data = Some frag) /\
  (forall frag, generate_html data = Some frag ->
     exists x, frag = start_marker ++ x ++ end_marker) /\
  (forall frag doc doc1,
     generate_html data = Some frag ->
     has_region doc = true -> reading_sub frag doc = Some doc1 -> has_region doc1 = true).
Proof.
  split; [apply generate_html_nonempty|]. split; [apply generate_html_markers|].
  intros frag doc doc1 Hg Hd Hs.
  unfold reading_sub in Hs.
  destruct (repl_filter frag) as [ex|] eqn:Hr; [|discriminate Hs]. injection Hs as <-.
  destruct (generate_html_markers _ _ Hg) as [x ->].
  destruct (sub_all_shape ex doc) as [H|[g [y [m [r [_ [_ [_ [_ Hout]]]]]]]]].
  - rewrite H. exact Hd.
  - rewrite Hout. apply has_region_app.
    destruct (repl_filter_card _ _ Hr m) as [z ->].
    rewrite <- app_assoc. apply has_region_of_start.
    + rewrite <- app_assoc. apply starts_with_app.
    + rewrite skipn_length_app.
      apply occurs_app_l, occurs_app_r, starts_with_occurs. reflexivity.
Qed.

(** * Further properties of the code *)

(** ** The driver *)

Lemma print_titles_run (i : nat) (bs : list book) (w : world) :
  print_titles i bs w = (inl tt, mk_world (wfs w) (out w ++ title_lines i bs)).
Proof.
  revert i w; induction bs as [|b bs IH]; intros i w.
  - unfold title_lines. simpl. rewrite app_nil_r. destruct w; reflexivity.
  - cbn [print_titles]. unfold wbind at 1, print at 1. rewrite IH. cbn [wfs out].
    unfold title_lines. cbn [length seq combine map fst snd].
    rewrite <- app_assoc. reflexivity.
Qed.

(** One run of [main] once the configuration has been read. *)
Lemma main_run (yaml_file html_file c : str) (w : world) :
  contents (wfs w) yaml_file = Some c ->
  let data := parse_yaml c in
  let w1 := mk_world (wfs w)
              (out w ++ [lit "Reading configuration from " ++ yaml_file ++ lit "...";
                         lit "Found " ++ str_of_nat (length (books data)) ++ lit " book(s)"]
                     ++ title_lines 1 (books data)) in
  main yaml_file html_file w =
  match generate_html data with
  | None => (inr IndexError, w1)
  | Some frag =>
      match update_html html_file frag (wfs w) with
      | (inl _, st) => (inl tt, mk_world st (out w1 ++ closing_lines data))
      | (inr e, st) => (inr (FileExn e), mk_world st (out w1))
      end
  end.
Proof.
  intros H data w1.
  unfold main. unfold wbind at 1, path_exists. rewrite H.
  unfold wbind at 1, wret at 1. unfold wbind at 1, print at 1.
  unfold wbind at 1, lift_fs at 1, parse_yaml_file, bind, read_file. cbn [wfs out].
  rewrite H. unfold ret. fold data.
  unfold wbind at 1, print at 1. cbn [wfs out].
  unfold wbind at 1. rewrite print_titles_run. cbn [wfs out].
  destruct (generate_html data) as [frag|].
  - unfold wbind at 1, wret at 1.
    unfold wbind at 1, lift_fs at 1. cbn [wfs out].
    destruct (update_html html_file frag (wfs w)) as [[u|e] st].
    + unfold closing_lines, w1. cbv beta iota delta [wbind print]. cbn [wfs out].
      rewrite <- !app_assoc. reflexivity.
    + unfold w1. rewrite <- !app_assoc. reflexivity.
  - unfold wbind at 1, wraise. unfold w1. rewrite <- !app_assoc. reflexivity.
Qed.

Lemma generate_html_nil (data : reading) : books data = [] -> generate_html data = None.
Proof. intros H. unfold generate_html, image_html. rewrite H. reflexivity. Qed.

Lemma last_app_cons {A} (l xs : list A) (x d : A) : last (l ++ x :: xs) d = last (x :: xs) d.
Proof.
  induction l as [|a l IH]; [reflexivity|].
  rewrite <- app_comm_cons. simpl. rewrite IH. destruct l; reflexivity.
Qed.

(** Without the configuration file, [main] prints an error and exits with
    status 1 before touching any file. *)
Theorem main_missing_config (yaml_file html_file : str) (w : world) :
  contents (wfs w) yaml_file = None ->
  main yaml_file html_file w =
  (inr (SystemExit 1), mk_world (wfs w) (out w ++ [lit "Error: " ++ yaml_file ++ lit " not found"])).
Proof.
  intros H. unfold main, wbind, path_exists. rewrite H. reflexivity.
Qed.

Lemma main_missing_config_witness :
  contents (wfs (site_world sample_yaml sample_page)) (lit "reading.yaml") = None /\
  main (lit "reading.yaml") index_path (site_world sample_yaml sample_page) =
  (inr (SystemExit 1), mk_world (wfs (site_world sample_yaml sample_page))
                         (out (site_world sample_yaml sample_page)
                          ++ [lit "Error: " ++ lit "reading.yaml" ++ lit " not found"])).
Proof.
  assert (H : contents (wfs (site_world sample_yaml sample_page)) (lit "reading.yaml") = None)
    by (vm_compute; reflexivity).
  split; [exact H|]. exact (main_missing_config _ index_path _ H).
Defined.

(** A configuration with no book makes [main] fail with [IndexError] after
    printing two lines; neither the page nor a backup is written. *)
Theorem main_no_books (yaml_file html_file c : str) (w : world) :
  contents (wfs w) yaml_file = Some c -> books (parse_yaml c) = [] ->
  main yaml_file html_file w =
  (inr IndexError,
   mk_world (wfs w) (out w ++ [lit "Reading configuration from " ++ yaml_file ++ lit "...";
                               lit "Found 0 book(s)"])).
Proof.
  intros H Hb. rewrite (main_run _ html_file _ _ H). cbv zeta.
  rewrite (generate_html_nil _ Hb), Hb. reflexivity.
Qed.

Lemma main_no_books_witness :
  contents (wfs (site_world (lit "summary: Nothing yet.") sample_page)) yaml_path
    = Some (lit "summary: Nothing yet.") /\
  books (parse_yaml (lit "summary: Nothing yet.")) = [] /\
  main yaml_path index_path (site_world (lit "summary: Nothing yet.") sample_page) =
  (inr IndexError,
   mk_world (wfs (site_world (lit "summary: Nothing yet.") sample_page))
            (out (site_world (lit "summary: Nothing yet.") sample_page)
             ++ [lit "Reading configuration from " ++ yaml_path ++ lit "...";
                 lit "Found 0 book(s)"])).
Proof.
  assert (H1 : contents (wfs (site_world (lit "summary: Nothing yet.") sample_page)) yaml_path
               = Some (lit "summary: Nothing yet.")) by (vm_compute; reflexivity).
  assert (H2 : books (parse_yaml (lit "summary: Nothing yet.")) = []) by (vm_compute; reflexivity).
  split; [exact H1|]. split; [exact H2|]. exact (main_no_books _ index_path _ _ H1 H2).
Defined.

(** With books in the configuration but no page, [main] fails with
    [FileNotFoundError] and writes no file. *)
Theorem main_missing_page (yaml_file html_file c : str) (w : world) :
  contents (wfs w) yaml_file = Some c -> books (parse_yaml c) <> [] ->
  contents (wfs w) html_file = None ->
  fst (main yaml_file html_file w) = inr (FileExn FileNotFoundError) /\
  wfs (snd (main yaml_file html_file w)) = wfs w.
Proof.
  intros H Hb Hh. rewrite (main_run _ html_file _ _ H). cbv zeta.
  destruct (generate_html_nonempty _ Hb) as [frag Hg]. rewrite Hg.
  assert (Hu : update_html html_file frag (wfs w) = (inr FileNotFoundError, wfs w))
    by (unfold update_html, bind, read_file; rewrite Hh; reflexivity).
  rewrite Hu. split; reflexivity.
Qed.

Lemma main_missing_page_witness :
  contents (wfs (site_world sample_yaml sample_page)) yaml_path = Some sample_yaml /\
  books (parse_yaml sample_yaml) <> [] /\
  contents (wfs (site_world sample_yaml sample_page)) (lit "site/index.html") = None /\
  fst (main yaml_path (lit "site/index.html") (site_world sample_yaml sample_page))
    = inr (FileExn FileNotFoundError) /\
  wfs (snd (main yaml_path (lit "site/index.html") (site_world sample_yaml sample_page)))
    = wfs (site_world sample_yaml sample_page).
Proof.
  assert (H1 : contents (wfs (site_world sample_yaml sample_page)) yaml_path = Some sample_yaml)
    by (vm_compute; reflexivity).
  assert (H2 : books (parse_yaml sample_yaml) <> []) by (vm_compute; discriminate).
  assert (H3 : contents (wfs (site_world sample_yaml sample_page)) (lit "site/index.html") = None)
    by (vm_compute; reflexivity).
  split; [exact H1|]. split; [exact H2|]. split; [exact H3|].
  exact (main_missing_page _ _ _ _ H1 H2 H3).
Defined.

(** A run that gets through: the page holds the patched text, the backup
    the text read, these are the only two writes, and the output is the
    report, one numbered line per book, and the closing lines. *)
Theorem main_success (yaml_file html_file c frag d d' : str) (w : world) :
  contents (wfs w) yaml_file = Some c ->
  generate_html (parse_yaml c) = Some frag ->
  contents (wfs w) html_file = Some d ->
  reading_sub frag d = Some d' ->
  let r := main yaml_file html_file w in
  fst r = inl tt /\
  contents (wfs (snd r)) html_file = Some d' /\
  contents (wfs (snd r)) (html_file ++ lit ".bak") = Some d /\
  writes (wfs (snd r)) = writes (wfs w) ++ [(html_file ++ lit ".bak", d); (html_file, d')] /\
  out (snd r) = out w ++ [lit "Reading configuration from " ++ yaml_file ++ lit "...";
                          lit "Found " ++ str_of_nat (length (books (parse_yaml c))) ++ lit " book(s)"]
                      ++ title_lines 1 (books (parse_yaml c)) ++ closing_lines (parse_yaml c).
Proof.
  intros H Hg Hh Hs r. unfold r. rewrite (main_run _ html_file _ _ H). cbv zeta.
  rewrite Hg. unfold update_html, bind, read_file. rewrite Hh.
  unfold raise_on_none, write_file. rewrite Hs. cbn [fst snd contents writes wfs out].
  rewrite str_eqb_refl, str_eqb_backup, str_eqb_refl.
  split; [reflexivity|]. split; [reflexivity|]. split; [reflexivity|].
  split; [rewrite <- app_assoc; reflexivity|].
  rewrite <- !app_assoc. reflexivity.
Qed.

Lemma main_success_witness :
  contents (wfs (site_world sample_yaml sample_page)) yaml_path = Some sample_yaml /\
  generate_html (parse_yaml sample_yaml) = Some sample_frag /\
  contents (wfs (site_world sample_yaml sample_page)) index_path = Some sample_page /\
  reading_sub sample_frag sample_page
    = Some (lit "<html><body>" ++ sample_frag ++ lit "</body></html>") /\
  let r := main yaml_path index_path (site_world sample_yaml sample_page) in
  fst r = inl tt /\
  contents (wfs (snd r)) index_path = Some (lit "<html><body>" ++ sample_frag ++ lit "</body></html>") /\
  contents (wfs (snd r)) (index_path ++ lit ".bak") = Some sample_page /\
  writes (wfs (snd r)) = writes (wfs (site_world sample_yaml sample_page))
    ++ [(index_path ++ lit ".bak", sample_page);
        (index_path, lit "<html><body>" ++ sample_frag ++ lit "</body></html>")] /\
  out (snd r) = out (site_world sample_yaml sample_page)
    ++ [lit "Reading configuration from " ++ yaml_path ++ lit "...";
        lit "Found " ++ str_of_nat (length (books (parse_yaml sample_yaml))) ++ lit " book(s)"]
    ++ title_lines 1 (books (parse_yaml sample_yaml)) ++ closing_lines (parse_yaml sample_yaml).
Proof.
  assert (H1 : contents (wfs (site_world sample_yaml sample_page)) yaml_path = Some sample_yaml)
    by (vm_compute; reflexivity).
  assert (H2 : generate_html (parse_yaml sample_yaml) = Some sample_frag)
    by (vm_compute; reflexivity).
  assert (H3 : contents (wfs (site_world sample_yaml sample_page)) index_path = Some sample_page)
    by (vm_compute; reflexivity).
  assert (H4 : reading_sub sample_frag sample_page
               = Some (lit "<html><body>" ++ sample_frag ++ lit "</body></html>"))
    by (vm_compute; reflexivity).
  split; [exact H1|]. split; [exact H2|]. split; [exact H3|]. split; [exact H4|].
  exact (main_success _ _ _ _ _ _ _ H1 H2 H3 H4).
Defined.

(** [main] ends normally only when the configuration exists and has a
    book; its last line then names the first book, so the fallback title
    [update] of the commit hint is never printed. *)
Theorem main_done_names_first_book (yaml_file html_file : str) (w : world) :
  fst (main yaml_file html_file w) = inl tt ->
  exists c b bs, contents (wfs w) yaml_file = Some c /\ books (parse_yaml c) = b :: bs /\
    last (out (snd (main yaml_file html_file w))) []
    = q "  3. Commit: git add . && git commit -m 'Reading: " ++ title b ++ q "'".
Proof.
  destruct (contents (wfs w) yaml_file) as [c|] eqn:H.
  - rewrite (main_run _ html_file _ _ H). cbv zeta.
    destruct (generate_html (parse_yaml c)) as [frag|] eqn:Hg; [|discriminate].
    destruct (update_html html_file frag (wfs w)) as [[u|e] st]; [|discriminate].
    intros _. destruct (books (parse_yaml c)) as [|b bs] eqn:Hb.
    + rewrite (generate_html_nil _ Hb) in Hg. discriminate.
    + exists c, b, bs. split; [reflexivity|]. split; [exact Hb|].
      cbn [out snd]. unfold closing_lines. rewrite last_app_cons. cbn [last].
      unfold commit_line. rewrite Hb. reflexivity.
  - unfold main, wbind, path_exists. rewrite H. discriminate.
Qed.

Lemma main_done_names_first_book_witness :
  fst (main yaml_path index_path (site_world sample_yaml sample_page)) = inl tt /\
  exists c b bs, contents (wfs (site_world sample_yaml sample_page)) yaml_path = Some c /\
    books (parse_yaml c) = b :: bs /\
    last (out (snd (main yaml_path index_path (site_world sample_yaml sample_page)))) []
    = q "  3. Commit: git add . && git commit -m 'Reading: " ++ title b ++ q "'".
Proof.
  assert (H : fst (main yaml_path index_path (site_world sample_yaml sample_page)) = inl tt)
    by (vm_compute; reflexivity).
  split; [exact H|]. exact (main_done_names_first_book _ _ _ H).
Defined.

(** ** The patcher *)


(** Without the page, [update_html] raises [FileNotFoundError] and writes
    nothing, not even the backup. *)
Theorem update_html_missing_page (html_file frag : str) (st : fs) :
  contents st html_file = None ->
  update_html html_file frag st = (inr FileNotFoundError, st).
Proof. intros H. unfold update_html, bind, read_file. rewrite H. reflexivity. Qed.

Lemma update_html_missing_page_witness :
  contents (fs_with index_path sample_page) (lit "other.html") = None /\
  update_html (lit "other.html") sample_frag (fs_with index_path sample_page)
  = (inr FileNotFoundError, fs_with index_path sample_page).
Proof.
  assert (H : contents (fs_with index_path sample_page) (lit "other.html") = None)
    by (vm_compute; reflexivity).
  split; [exact H|]. exact (update_html_missing_page _ sample_frag _ H).
Defined.

(** [update_html] writes the page and its backup and nothing else: every
    other path keeps its contents, and each write it logs is to one of the
    two paths. *)
Theorem update_html_frame (html_file frag : str) (st : fs) :
  let st' := snd (update_html html_file frag st) in
  (forall p, p <> html_file -> p <> html_file ++ lit ".bak" -> contents st' p = contents st p) /\
  exists ws, writes st' = writes st ++ ws /\
             Forall (fun x => fst x = html_file ++ lit ".bak" \/ fst x = html_file) ws.
Proof.
  assert (Hne : forall p a, p <> a -> str_eqb p a = false).
  { intros p a H. unfold str_eqb. destruct (list_eq_dec ascii_dec p a); congruence. }
  unfold update_html, bind, read_file, write_file, raise_on_none.
  destruct (contents st html_file) as [d|] eqn:Hd; cbv zeta.
  - destruct (reading_sub frag d) as [d'|]; cbn [snd contents writes].
    + split.
      * intros p H1 H2. rewrite (Hne _ _ H1), (Hne _ _ H2). reflexivity.
      * exists [(html_file ++ lit ".bak", d); (html_file, d')].
        split; [rewrite <- app_assoc; reflexivity|].
        constructor; [left; reflexivity | constructor; [right; reflexivity | constructor]].
    + split.
      * intros p H1 H2. rewrite (Hne _ _ H2). reflexivity.
      * exists [(html_file ++ lit ".bak", d)]. split; [reflexivity|].
        constructor; [left; reflexivity | constructor].
  - cbn [snd]. split; [reflexivity|]. exists []. split; [rewrite app_nil_r; reflexivity | constructor].
Qed.



(** With a card [re.sub] accepts, a page without a marker region is
    written back unchanged, and its backup holds the same text. *)
Theorem update_html_no_region (html_file frag d : str) (st : fs) (ex : str -> str) :
  contents st html_file = Some d -> repl_filter frag = Some ex -> has_region d = false ->
  let r := update_html html_file frag st in
  fst r = inl tt /\
  contents (snd r) html_file = Some d /\
  contents (snd r) (html_file ++ lit ".bak") = Some d.
Proof.
  intros H Hf Hd r. unfold r, update_html, bind, read_file, write_file, raise_on_none.
  rewrite H, (reading_sub_no_region _ _ _ Hf Hd). cbn [fst snd contents].
  rewrite str_eqb_refl, str_eqb_backup, str_eqb_refl. repeat split.
Qed.

Lemma update_html_no_region_witness :
  contents (fs_with index_path (lit "<p>no card</p>")) index_path = Some (lit "<p>no card</p>") /\
  repl_filter sample_frag = Some (const_repl sample_frag) /\
  has_region (lit "<p>no card</p>") = false /\
  let r := update_html index_path sample_frag (fs_with index_path (lit "<p>no card</p>")) in
  fst r = inl tt /\
  contents (snd r) index_path = Some (lit "<p>no card</p>") /\
  contents (snd r) (index_path ++ lit ".bak") = Some (lit "<p>no card</p>").
Proof.
  assert (H1 : contents (fs_with index_path (lit "<p>no card</p>")) index_path
               = Some (lit "<p>no card</p>")) by (vm_compute; reflexivity).
  assert (H2 : repl_filter sample_frag = Some (const_repl sample_frag)).
  { unfold repl_filter. replace (existsb (Ascii.eqb bslash) sample_frag) with false
      by (vm_compute; reflexivity). reflexivity. }
  assert (H3 : has_region (lit "<p>no card</p>") = false) by (vm_compute; reflexivity).
  split; [exact H1|]. split; [exact H2|]. split; [exact H3|].
  exact (update_html_no_region _ _ _ _ _ H1 H2 H3).
Defined.

(** ** Backslashes in the card *)

Lemma sub_n_ext (f g : str -> str) (n : nat) (s : str) :
  (forall m, f m = g m) -> sub_n n f s = sub_n n g s.
Proof.
  intros H. revert s; induction n as [|n IH]; intros s; [reflexivity|].
  destruct s as [|c s]; [reflexivity|]. cbn [sub_n].
  destruct (match_at (c :: s)) as [[m r]|]; rewrite IH; [rewrite H|]; reflexivity.
Qed.

Lemma parse_escape_step (n : nat) (c e : ascii) (s : str) :
  simple_escape c = Some e ->
  parse_template_n (S n) (bslash :: c :: s) =
  match parse_template_n n s with Some t => Some (TLit e :: t) | None => None end.
Proof.
  intros H. destruct c as [[] [] [] [] [] [] [] []]; vm_compute in H;
    try discriminate H; injection H as <-; reflexivity.
Qed.

Lemma parse_group0_step (n : nat) (s : str) :
  parse_template_n (S n) (bslash :: "g" :: "<" :: "0" :: ">" :: s)%char =
  match parse_template_n n s with Some t => Some (TGroup0 :: t) | None => None end.
Proof. reflexivity. Qed.

Lemma parse_letter_step (n : nat) (c : ascii) (s : str) :
  is_ascii_letter c = true -> simple_escape c = None -> Ascii.eqb c "g" = false ->
  parse_template_n (S n) (bslash :: c :: s) = None.
Proof.
  intros H1 H2 H3. destruct c as [[] [] [] [] [] [] [] []]; vm_compute in H1, H2, H3;
    try discriminate H1; try discriminate H2; try discriminate H3; reflexivity.
Qed.

Lemma existsb_bslash_mid (a b : str) :
  existsb (Ascii.eqb bslash) (a ++ bslash :: b) = true.
Proof. rewrite existsb_app. cbn [existsb]. rewrite Ascii.eqb_refl. apply orb_true_r. Qed.

(** [re.sub] reads the card as a template: an escape such as [\n], [\t]
    or a doubled backslash in the card is written into the page as the
    one character it stands for. *)
Theorem reading_sub_escape (a b doc : str) (c e : ascii) :
  existsb (Ascii.eqb bslash) a = false -> existsb (Ascii.eqb bslash) b = false ->
  simple_escape c = Some e ->
  reading_sub (a ++ bslash :: c :: b) doc = Some (sub_all (fun _ => a ++ e :: b) doc).
Proof.
  intros Ha Hb He. unfold reading_sub, repl_filter. rewrite existsb_bslash_mid.
  unfold parse_template. rewrite parse_prefix by (exact Ha || lia).
  replace (length (a ++ bslash :: c :: b) - length a) with (S (S (length b)))
    by (rewrite length_app; simpl; lia).
  rewrite (parse_escape_step _ c e _ He).
  rewrite parse_no_bslash by (exact Hb || lia).
  f_equal. unfold sub_all. apply sub_n_ext. intros m.
  rewrite expand_app, expand_lits. simpl. rewrite expand_lits. reflexivity.
Qed.

Lemma reading_sub_escape_witness :
  existsb (Ascii.eqb bslash) (lit "<p>Tabs") = false /\
  existsb (Ascii.eqb bslash) (lit "here</p>") = false /\
  simple_escape "t"%char = Some "009"%char /\
  reading_sub (lit "<p>Tabs" ++ bslash :: "t"%char :: lit "here</p>") sample_page
    = Some (sub_all (fun _ => lit "<p>Tabs" ++ "009"%char :: lit "here</p>") sample_page).
Proof.
  assert (H1 : existsb (Ascii.eqb bslash) (lit "<p>Tabs") = false) by (vm_compute; reflexivity).
  assert (H2 : existsb (Ascii.eqb bslash) (lit "here</p>") = false) by (vm_compute; reflexivity).
  assert (H3 : simple_escape "t"%char = Some "009"%char) by reflexivity.
  split; [exact H1|]. split; [exact H2|]. split; [exact H3|].
  exact (reading_sub_escape _ _ sample_page _ _ H1 H2 H3).
Defined.

(** A card holding [\g<0>] puts the replaced region itself back at that
    place. *)
Theorem reading_sub_group0 (a b doc : str) :
  existsb (Ascii.eqb bslash) a = false -> existsb (Ascii.eqb bslash) b = false ->
  reading_sub (a ++ bslash :: "g" :: "<" :: "0" :: ">" :: b)%char doc
  = Some (sub_all (fun m => a ++ m ++ b) doc).
Proof.
  intros Ha Hb. unfold reading_sub, repl_filter. rewrite existsb_bslash_mid.
  unfold parse_template. rewrite parse_prefix by (exact Ha || lia).
  replace (length (a ++ (bslash :: "g" :: "<" :: "0" :: ">" :: b)%char) - length a)
    with (S (S (S (S (S (length b)))))) by (rewrite length_app; simpl; lia).
  rewrite parse_group0_step.
  rewrite parse_no_bslash by (exact Hb || lia).
  f_equal. unfold sub_all. apply sub_n_ext. intros m.
  rewrite expand_app, expand_lits. simpl. rewrite expand_lits. reflexivity.
Qed.

Lemma reading_sub_group0_witness :
  existsb (Ascii.eqb bslash) (lit "<div>") = false /\
  existsb (Ascii.eqb bslash) (lit "</div>") = false /\
  reading_sub (lit "<div>" ++ bslash :: "g" :: "<" :: "0" :: ">" :: lit "</div>")%char sample_page
  = Some (sub_all (fun m => lit "<div>" ++ m ++ lit "</div>") sample_page).
Proof.
  assert (H1 : existsb (Ascii.eqb bslash) (lit "<div>") = false) by (vm_compute; reflexivity).
  assert (H2 : existsb (Ascii.eqb bslash) (lit "</div>") = false) by (vm_compute; reflexivity).
  split; [exact H1|]. split; [exact H2|].
  exact (reading_sub_group0 _ _ sample_page H1 H2).
Defined.

(** A card whose first backslash is followed by an ASCII letter that is
    neither a known escape nor [g] is refused by [re.sub], whatever the
    page holds. *)
Theorem reading_sub_bad_letter (a b : str) (c : ascii) :
  existsb (Ascii.eqb bslash) a = false -> is_ascii_letter c = true ->
  simple_escape c = None -> c <> "g"%char ->
  forall doc, reading_sub (a ++ bslash :: c :: b) doc = None.
Proof.
  intros Ha Hl Hs Hg doc. unfold reading_sub, repl_filter. rewrite existsb_bslash_mid.
  unfold parse_template. rewrite parse_prefix by (exact Ha || lia).
  replace (length (a ++ bslash :: c :: b) - length a) with (S (S (length b)))
    by (rewrite length_app; simpl; lia).
  rewrite parse_letter_step; [reflexivity | exact Hl | exact Hs |].
  destruct (Ascii.eqb_spec c "g"); congruence.
Qed.

Lemma reading_sub_bad_letter_witness :
  existsb (Ascii.eqb bslash) (lit "Notes kept in C:") = false /\
  is_ascii_letter "d"%char = true /\ simple_escape "d"%char = None /\ "d"%char <> "g"%char /\
  forall doc, reading_sub (lit "Notes kept in C:" ++ bslash :: "d"%char :: lit "ev") doc = None.
Proof.
  assert (H1 : existsb (Ascii.eqb bslash) (lit "Notes kept in C:") = false)
    by (vm_compute; reflexivity).
  assert (H2 : is_ascii_letter "d"%char = true) by reflexivity.
  assert (H3 : simple_escape "d"%char = None) by reflexivity.
  assert (H4 : "d"%char <> "g"%char) by discriminate.
  split; [exact H1|]. split; [exact H2|]. split; [exact H3|]. split; [exact H4|].
  exact (reading_sub_bad_letter _ (lit "ev") _ H1 H2 H3 H4).
Defined.

(** ** Reading the configuration *)

Lemma take_line_no_nl (s : str) : ~ In nl (take_line s).
Proof.
  induction s as [|c s IH]; simpl; [easy|].
  destruct (Ascii.eqb_spec c nl) as [E|E]; [easy|].
  intros [H|H]; [congruence | exact (IH H)].
Qed.

Lemma in_removelast_in {A} (x : A) (l : list A) : In x (removelast l) -> In x l.
Proof.
  induction l as [|a l IH]; simpl; [easy|].
  destruct l as [|b l]; [easy|]. intros [H|H]; [left; exact H | right; exact (IH H)].
Qed.

Lemma greedy_to_quote_in (line g : str) (x : ascii) :
  greedy_to_quote line = Some g -> In x g -> In x line.
Proof.
  revert g; induction line as [|c line IH]; intros g H Hx; [discriminate H|].
  cbn [greedy_to_quote] in H. destruct (greedy_to_quote line) as [g'|] eqn:Hg.
  - injection H as <-. destruct Hx as [Hx|Hx]; [left; exact Hx | right; exact (IH _ eq_refl Hx)].
  - destruct line as [|d line']; [discriminate H|].
    destruct (Ascii.eqb d dq); [|discriminate H]. injection H as <-.
    destruct Hx as [Hx|[]]. left. exact Hx.
Qed.

Lemma last_non_nl_ne (w : str) (c : ascii) : last_non_nl w = Some c -> c <> nl.
Proof.
  induction w as [|d w IH]; simpl; [discriminate|].
  destruct (last_non_nl w) as [e|]; [intros H; injection H as <-; apply IH; reflexivity|].
  destruct (Ascii.eqb_spec d nl); [discriminate|]. intros H. injection H as <-. assumption.
Qed.

Lemma in_skip_ws (x : ascii) (s : str) : In x (skip_ws s) -> In x s.
Proof.
  induction s as [|c s IH]; simpl; [easy|].
  destruct (is_space c); [intros H; right; exact (IH H) | easy].
Qed.

Lemma in_strip (x : ascii) (s : str) : In x (strip s) -> In x s.
Proof.
  unfold strip. intros H. apply in_rev, in_skip_ws, in_rev, in_skip_ws in H. exact H.
Qed.

Lemma unquoted_value_no_nl (w g : str) : unquoted_value w = Some g -> ~ In nl g.
Proof.
  unfold unquoted_value. destruct (skip_ws w) as [|c t].
  - destruct (last_non_nl w) as [c|] eqn:Hl; [|discriminate].
    intros H. injection H as <-. intros [E|[]]. exact (last_non_nl_ne _ _ Hl E).
  - intros H. injection H as <-. apply (take_line_no_nl (c :: t)).
Qed.

Lemma quoted_line_value_no_nl (w g : str) : quoted_line_value w = Some g -> ~ In nl g.
Proof.
  unfold quoted_line_value. destruct (skip_ws w) as [|c rest]; [discriminate|].
  destruct (Ascii.eqb c dq); [|discriminate].
  destruct (rev (take_line rest)) as [|d [|e t]]; try discriminate.
  destruct (Ascii.eqb d dq); [|discriminate].
  intros H. injection H as <-. intros Hn. apply in_removelast_in in Hn.
  exact (take_line_no_nl _ Hn).
Qed.

Lemma quoted_value_no_nl (w g : str) : quoted_value w = Some g -> ~ In nl g.
Proof.
  unfold quoted_value. destruct (skip_ws w) as [|c rest]; [discriminate|].
  destruct (Ascii.eqb c dq); [|discriminate].
  intros H Hn. exact (take_line_no_nl _ (greedy_to_quote_in _ _ _ H Hn)).
Qed.

Lemma search_some (f : str -> option str) (s g : str) :
  search f s = Some g -> exists t, f t = Some g.
Proof.
  induction s as [|c s IH]; cbn [search]; destruct (f _) as [g'|] eqn:Hf;
    try (intros H; injection H as <-; eexists; exact Hf); try discriminate.
  exact IH.
Qed.

Lemma search_bol_some (f : str -> option str) (bol : bool) (s g : str) :
  search_bol f bol s = Some g -> exists t, f t = Some g.
Proof.
  revert bol; induction s as [|c s IH]; intros bol; cbn [search_bol];
    destruct bol; try destruct (f _) as [g'|] eqn:Hf;
    try (intros H; injection H as <-; eexists; exact Hf); try discriminate; apply IH.
Qed.

Lemma bind_after_key_some (key t g : str) (h : str -> option str) :
  bind_opt (after_key key t) h = Some g -> exists w, h w = Some g.
Proof. unfold bind_opt. destruct (after_key key t) as [w|]; [eexists; eassumption | discriminate]. Qed.

Lemma skip_ws_cases (s : str) :
  skip_ws s = [] \/ exists c t, skip_ws s = c :: t /\ is_space c = false.
Proof.
  induction s as [|c s IH]; [left; reflexivity|]. cbn [skip_ws].
  destruct (is_space c) eqn:E; [exact IH|]. right. exists c, s. split; [reflexivity | exact E].
Qed.

Lemma skip_ws_idem (s : str) : skip_ws (skip_ws s) = skip_ws s.
Proof.
  destruct (skip_ws_cases s) as [->|[c [t [-> E]]]]; [reflexivity|]. simpl. rewrite E. reflexivity.
Qed.

Lemma skip_ws_suffix (s : str) : exists p, s = p ++ skip_ws s.
Proof.
  induction s as [|c s [p IH]]; [exists []; reflexivity|]. cbn [skip_ws].
  destruct (is_space c); [exists (c :: p); simpl; f_equal; exact IH | exists []; reflexivity].
Qed.

Lemma suffix_last (p v l : str) (c : ascii) :
  p ++ v = l ++ [c] -> v <> [] -> exists v0, v = v0 ++ [c].
Proof.
  destruct v as [|x v0] using rev_ind; [easy|]. intros H _.
  rewrite app_assoc in H. apply app_inj_tail in H as [_ ->]. exists v0. reflexivity.
Qed.

(** A stripped text is left as it is by a second strip. *)
Lemma strip_idem (s : str) : strip (strip s) = strip s.
Proof.
  unfold strip. set (u := skip_ws s). set (v := skip_ws (rev u)).
  assert (Hv : skip_ws (rev v) = rev v).
  { destruct v as [|x v'] eqn:Ev; [reflexivity|]. rewrite <- Ev.
    destruct (skip_ws_cases s) as [Hu|[c [t [Hu Hc]]]].
    - exfalso. unfold v, u in Ev. rewrite Hu in Ev. discriminate Ev.
    - destruct (skip_ws_suffix (rev u)) as [p Hp].
      unfold u in Hp at 1. rewrite Hu in Hp. cbn [rev] in Hp. fold v in Hp.
      destruct (suffix_last p v (rev t) c (eq_sym Hp)) as [v0 Hv0]; [rewrite Ev; discriminate|].
      rewrite Hv0, rev_app_distr. cbn [rev app]. simpl. rewrite Hc. reflexivity. }
  rewrite Hv, rev_involutive. unfold v. rewrite skip_ws_idem. reflexivity.
Qed.

Lemma parse_summary_line (content : str) :
  ~ In nl (parse_summary content) /\ strip (parse_summary content) = parse_summary content.
Proof.
  unfold parse_summary.
  destruct (summary_quoted content) as [g|] eqn:Hq.
  - unfold summary_quoted in Hq. apply search_bol_some in Hq as [t Ht]. apply bind_after_key_some in Ht as [w Hw].
    split; [intros Hn; exact (quoted_line_value_no_nl _ _ Hw (in_strip _ _ Hn)) | apply strip_idem].
  - destruct (summary_unquoted content) as [g|] eqn:Hu.
    + unfold summary_unquoted in Hu. apply search_bol_some in Hu as [t Ht]. apply bind_after_key_some in Ht as [w Hw].
      split; [intros Hn; exact (unquoted_value_no_nl _ _ Hw (in_strip _ _ Hn)) | apply strip_idem].
    + split; [easy | reflexivity].
Qed.

Lemma parse_field_line (field block : str) :
  ~ In nl (parse_field field block) /\ strip (parse_field field block) = parse_field field block.
Proof.
  unfold parse_field.
  destruct (field_quoted field block) as [g|] eqn:Hq.
  - unfold field_quoted in Hq. apply search_some in Hq as [t Ht]. apply bind_after_key_some in Ht as [w Hw].
    split; [intros Hn; exact (quoted_value_no_nl _ _ Hw (in_strip _ _ Hn)) | apply strip_idem].
  - destruct (field_unquoted field block) as [g|] eqn:Hu.
    + unfold field_unquoted in Hu. apply search_some in Hu as [t Ht]. apply bind_after_key_some in Ht as [w Hw].
      split; [intros Hn; exact (unquoted_value_no_nl _ _ Hw (in_strip _ _ Hn)) | apply strip_idem].
    + split; [easy | reflexivity].
Qed.

(** Every value read from the configuration, the summary and each field
    of each book, is one line without surrounding whitespace: it holds no
    newline, and stripping it again changes nothing. *)
Theorem parse_yaml_values_single_line (content : str) :
  Forall (fun v => ~ In nl v /\ strip v = v)
    (summary (parse_yaml content) :: concat (map book_fields (books (parse_yaml content)))).
Proof.
  constructor; [apply parse_summary_line|].
  cbn [books parse_yaml]. rewrite map_map. apply Forall_concat, Forall_map, Forall_forall.
  intros blk _. unfold parse_book, book_fields. cbn [title author image buy_url buy_label description].
  repeat constructor; apply parse_field_line.
Qed.

Lemma length_skip_ws (s : str) : length (skip_ws s) <= length s.
Proof. destruct (skip_ws_suffix s) as [p Hp]. rewrite Hp at 2. rewrite length_app. lia. Qed.

Lemma length_skipn_le {A} (n : nat) (l : list A) : length (skipn n l) <= length l.
Proof. revert l; induction n as [|n IH]; intros [|a l]; simpl; try lia. specialize (IH l). lia. Qed.

Lemma split_match_length (s r : str) : split_match s = Some r -> length r < length s.
Proof.
  unfold split_match. destruct s as [|c t]; [discriminate|].
  destruct (Ascii.eqb c nl); [|discriminate].
  destruct (skip_ws t) as [|d t2] eqn:Ht; [discriminate|].
  destruct (Ascii.eqb d "-"); [|discriminate].
  destruct t2 as [|e t3]; [discriminate|]. destruct (is_space e); [|discriminate].
  unfold after_key. destruct (starts_with _ _); [|discriminate]. intros H. injection H as <-.
  pose proof (length_skip_ws t) as H1. rewrite Ht in H1.
  pose proof (length_skip_ws (e :: t3)) as H2.
  pose proof (length_skipn_le (length (lit "title:")) (skip_ws (e :: t3))) as H3.
  simpl in *. lia.
Qed.

Lemma split_n_fuel (n m : nat) (s : str) :
  length s <= n -> length s <= m -> split_n n s = split_n m s.
Proof.
  revert m s; induction n as [|n IH]; intros m s Hn Hm.
  - destruct s; [|simpl in Hn; lia]. destruct m; reflexivity.
  - destruct m as [|m]; [destruct s; [reflexivity | simpl in Hm; lia]|].
    destruct s as [|c s]; [reflexivity|]. cbn [split_n].
    destruct (split_match (c :: s)) as [r|] eqn:E.
    + apply split_match_length in E. simpl in *. rewrite (IH m r) by lia. reflexivity.
    + simpl in *. rewrite (IH m s) by lia. reflexivity.
Qed.

Lemma split_match_not_nl (c : ascii) (s : str) : c <> nl -> split_match (c :: s) = None.
Proof.
  intros H. unfold split_match. destruct (Ascii.eqb_spec c nl); [congruence | reflexivity].
Qed.

(** Text before the first newline never yields a book: the delimiter of
    the books starts with a newline, so a file whose first line is
    [- title: ...] loses that book. *)
Theorem parse_yaml_first_line_no_book (l s : str) :
  ~ In nl l -> books (parse_yaml (l ++ s)) = books (parse_yaml s).
Proof.
  intros Hl. cbn [books parse_yaml]. f_equal. unfold book_blocks.
  assert (G : forall n, length (l ++ s) <= n ->
              snd (split_n n (l ++ s)) = snd (split_n (length s) s)).
  { induction l as [|c l IH]; intros n Hn.
    - rewrite app_nil_l in *. rewrite (split_n_fuel n (length s)) by lia. reflexivity.
    - destruct n as [|n]; [simpl in Hn; lia|].
      cbn [app split_n]. rewrite split_match_not_nl by (intros E; apply Hl; left; exact E).
      destruct (split_n n (l ++ s)) as [p ps] eqn:E. cbn [snd].
      rewrite <- (IH (fun H => Hl (or_intror H)) n) by (simpl in Hn; lia).
      rewrite E. reflexivity. }
  apply G. lia.
Qed.

Lemma parse_yaml_first_line_no_book_witness :
  ~ In nl (lit "- title: Dune") /\
  books (parse_yaml (lit "- title: Dune" ++ sample_yaml)) = books (parse_yaml sample_yaml).
Proof.
  assert (H : ~ In nl (lit "- title: Dune")) by (intros Hin; vm_compute in Hin; intuition discriminate).
  split; [exact H|]. exact (parse_yaml_first_line_no_book _ sample_yaml H).
Defined.

Lemma occurs_of_suffix_start (p x q : str) : starts_with p x = true -> occurs p (q ++ x) = true.
Proof. intros H. apply occurs_app_r, starts_with_occurs, H. Qed.

Lemma split_match_title (s r : str) : split_match s = Some r -> occurs (lit "title:") s = true.
Proof.
  unfold split_match. destruct s as [|c t]; [discriminate|].
  destruct (Ascii.eqb c nl); [|discriminate].
  destruct (skip_ws_suffix t) as [p1 Hp1].
  destruct (skip_ws t) as [|d t2] eqn:Ht; [discriminate|].
  destruct (Ascii.eqb d "-"); [|discriminate].
  destruct t2 as [|e t3]; [discriminate|]. destruct (is_space e); [|discriminate].
  destruct (skip_ws_suffix (e :: t3)) as [p2 Hp2].
  unfold after_key. destruct (starts_with (lit "title:") (skip_ws (e :: t3))) eqn:Hs; [|discriminate].
  intros _. rewrite Hp1, Hp2.
  replace (c :: p1 ++ d :: p2 ++ skip_ws (e :: t3)) with ((c :: p1 ++ d :: p2) ++ skip_ws (e :: t3))
    by (simpl; rewrite <- app_assoc; reflexivity).
  apply occurs_of_suffix_start, Hs.
Qed.

(** Without the text [title:] the configuration has no book. *)
Theorem parse_yaml_no_title_no_books (content : str) :
  occurs (lit "title:") content = false -> books (parse_yaml content) = [].
Proof.
  intros H. cbn [books parse_yaml]. unfold book_blocks.
  assert (G : forall n s, occurs (lit "title:") s = false -> snd (split_n n s) = []).
  { induction n as [|n IH]; intros [|c s] Hs; try reflexivity.
    cbn [split_n]. destruct (split_match (c :: s)) as [r|] eqn:E.
    - apply split_match_title in E. congruence.
    - destruct (split_n n s) as [p ps] eqn:Es. cbn [snd].
      rewrite <- (IH s (occurs_cons_false _ _ _ Hs)), Es. reflexivity. }
  rewrite G by exact H. reflexivity.
Qed.

Lemma parse_yaml_no_title_no_books_witness :
  occurs (lit "title:") (lit "summary: Between books.
books:
") = false /\
  books (parse_yaml (lit "summary: Between books.
books:
")) = [].
Proof.
  assert (H : occurs (lit "title:") (lit "summary: Between books.
books:
") = false) by (vm_compute; reflexivity).
  split; [exact H|]. exact (parse_yaml_no_title_no_books _ H).
Defined.

Lemma search_none_all (f : str -> option str) (s : str) :
  (forall p t, s = p ++ t -> f t = None) -> search f s = None.
Proof.
  induction s as [|c s IH]; intros H; cbn [search].
  - rewrite (H [] [] eq_refl). reflexivity.
  - rewrite (H [] (c :: s) eq_refl). apply IH. intros p t ->. apply (H (c :: p) t). reflexivity.
Qed.

Lemma search_hit (f : str -> option str) (s g : str) : f s = Some g -> search f s = Some g.
Proof. intros H. destruct s; cbn [search]; rewrite H; reflexivity. Qed.

Lemma in_skipn_in {A} (x : A) (n : nat) (l : list A) : In x (skipn n l) -> In x l.
Proof. intros H. rewrite <- (firstn_skipn n l). apply in_or_app. right. exact H. Qed.

Lemma quoted_value_dq (w g : str) : quoted_value w = Some g -> In dq w.
Proof.
  unfold quoted_value. destruct (skip_ws_suffix w) as [p Hp].
  destruct (skip_ws w) as [|c rest] eqn:E; [discriminate|].
  destruct (Ascii.eqb_spec c dq) as [->|]; [|discriminate]. intros _.
  rewrite Hp. apply in_or_app. right. left. reflexivity.
Qed.

Lemma field_quoted_no_dq (field block : str) : ~ In dq block -> field_quoted field block = None.
Proof.
  intros Hb. unfold field_quoted. apply search_none_all. intros p t ->.
  unfold bind_opt, after_key. destruct (starts_with _ t); [|reflexivity].
  destruct (quoted_value _) as [g|] eqn:Hq; [|reflexivity].
  exfalso. apply Hb, in_or_app. right. exact (in_skipn_in _ _ _ (quoted_value_dq _ _ Hq)).
Qed.

Lemma after_key_app (k s : str) : after_key k (k ++ s) = Some s.
Proof. unfold after_key. rewrite starts_with_app, skipn_length_app. reflexivity. Qed.

Lemma skip_ws_spaces (ws s : str) : forallb is_space ws = true -> skip_ws (ws ++ s) = skip_ws s.
Proof.
  induction ws as [|c ws IH]; intros H; [reflexivity|].
  simpl in H. apply andb_prop in H as [Hc H]. cbn [app skip_ws]. rewrite Hc. apply IH, H.
Qed.

Lemma take_line_app (x y : str) : ~ In nl x -> take_line (x ++ y) = x ++ take_line y.
Proof.
  induction x as [|c x IH]; intros H; [reflexivity|]. cbn [app take_line].
  destruct (Ascii.eqb_spec c nl) as [E|E]; [exfalso; apply H; left; exact E|].
  rewrite IH by (intros Hx; apply H; right; exact Hx). reflexivity.
Qed.

(** When the text after a book's [- title:] is blank up to the end of its
    line, the book's title is read from the next line that is not blank,
    whatever that line holds (here for a block without double quotes). *)
Theorem parse_book_blank_title (ws l rest : str) (c : ascii) :
  forallb is_space ws = true -> is_space c = false -> ~ In nl (c :: l) ->
  ~ In dq (ws ++ c :: l ++ rest) -> (rest = [] \/ exists r, rest = nl :: r) ->
  title (parse_book (ws ++ c :: l ++ rest)) = strip (c :: l).
Proof.
  intros Hws Hc Hl Hq Hr. cbn [parse_book title]. unfold parse_field.
  rewrite field_quoted_no_dq.
  2: { intros H. apply in_app_or in H as [H|H]; [vm_compute in H; intuition discriminate | exact (Hq H)]. }
  unfold field_unquoted. rewrite (search_hit _ _ (c :: l)); [reflexivity|].
  replace (field_key (lit "title")) with (lit "title:") by reflexivity.
  rewrite after_key_app. cbn [bind_opt]. unfold unquoted_value.
  rewrite skip_ws_spaces by exact Hws. cbn [skip_ws]. rewrite Hc.
  change (c :: l ++ rest) with ((c :: l) ++ rest). rewrite take_line_app by exact Hl.
  destruct Hr as [->|[r ->]]; cbn [take_line]; [|rewrite Ascii.eqb_refl]; rewrite app_nil_r; reflexivity.
Qed.

Lemma parse_book_blank_title_witness :
  forallb is_space (lit "
    ") = true /\ is_space "a"%char = false /\
  ~ In nl ("a"%char :: lit "uthor: Orson Scott Card") /\
  ~ In dq (lit "
    " ++ "a"%char :: lit "uthor: Orson Scott Card" ++ lit "
    image: ender.jpg") /\
  (lit "
    image: ender.jpg" = [] \/ exists r, lit "
    image: ender.jpg" = nl :: r) /\
  title (parse_book (lit "
    " ++ "a"%char :: lit "uthor: Orson Scott Card" ++ lit "
    image: ender.jpg")) = strip ("a"%char :: lit "uthor: Orson Scott Card").
Proof.
  assert (H1 : forallb is_space (lit "
    ") = true) by reflexivity.
  assert (H2 : is_space "a"%char = false) by reflexivity.
  assert (H3 : ~ In nl ("a"%char :: lit "uthor: Orson Scott Card"))
    by (intros Hin; vm_compute in Hin; intuition discriminate).
  assert (H4 : ~ In dq (lit "
    " ++ "a"%char :: lit "uthor: Orson Scott Card" ++ lit "
    image: ender.jpg")) by (intros Hin; vm_compute in Hin; intuition discriminate).
  assert (H5 : lit "
    image: ender.jpg" = [] \/ exists r, lit "
    image: ender.jpg" = nl :: r) by (right; eexists; reflexivity).
  split; [exact H1|]. split; [exact H2|]. split; [exact H3|]. split; [exact H4|]. split; [exact H5|].
  exact (parse_book_blank_title _ _ _ _ H1 H2 H3 H4 H5).
Defined.
